(** * connectsphere: the team-chat relay of [server.js]

    A shallow embedding of the server's registry of team codes and of its
    four socket handlers (join-room, send-message, delete-message,
    disconnect), with the properties of the room state machine.

    Conventions of the embedding.
    - JS objects used as dictionaries ([teams], [roomMessages],
      [roomUserCounts]) are finite maps keyed by strings; a missing key is
      [undefined].
    - Strings are ASCII text. [trim] strips the ASCII white space of
      ECMAScript (TAB, LF, VT, FF, CR, SP) and [toUpperCase] maps a-z to
      A-Z; code units above 127 are left alone.
    - Payload fields are [option string]: [None] is an absent field. The
      payload itself is an object: join-room and delete-message take their
      payload apart in the parameter list, so one sent with a null or
      missing payload makes the handler throw; such a message is not an
      event of the model.
    - [Date.now()], [Math.random()] and [new Date().toISOString()] are
      inputs of the event that triggers a handler.
    - [socket.emit] and [io.to(room).emit] serialise their argument when
      they are called, so a delivery records the value at that moment.
    - The keys of the three dictionaries are uppercased codes, so none of
      them names a property that an object inherits.
    - Writing the registry to [teams.json] and the static pages are left
      out; the room of its own id that socket.io puts every socket in is
      left out as well. *)

From Stdlib Require Import ZArith NArith Ascii String List Lia.
From Stdlib Require Import DecimalString DecimalN DecimalPos.
From stdpp Require Import base gmap strings list fin_maps.

Local Open Scope Z_scope.

(** ** JavaScript strings and truthiness *)

Module JS.

Definition is_space (a : ascii) : bool :=
  match N_of_ascii a with
  | 9%N | 10%N | 11%N | 12%N | 13%N | 32%N => true
  | _ => false
  end.

Definition is_empty (s : string) : bool :=
  match s with EmptyString => true | String _ _ => false end.

Fixpoint trimStart (s : string) : string :=
  match s with
  | EmptyString => EmptyString
  | String a r => if is_space a then trimStart r else s
  end.

Fixpoint trimEnd (s : string) : string :=
  match s with
  | EmptyString => EmptyString
  | String a r =>
      let r' := trimEnd r in
      if is_space a && is_empty r' then EmptyString else String a r'
  end.

(** [s.trim()] *)
Definition trim (s : string) : string := trimEnd (trimStart s).

Definition upper_char (a : ascii) : ascii :=
  let n := N_of_ascii a in
  if ((97 <=? n) && (n <=? 122))%N then ascii_of_N (n - 32) else a.

(** [s.toUpperCase()] *)
Fixpoint toUpperCase (s : string) : string :=
  match s with
  | EmptyString => EmptyString
  | String a r => String (upper_char a) (toUpperCase r)
  end.

(** [s.slice(0, n)] *)
Fixpoint slice0 (n : nat) (s : string) : string :=
  match n, s with
  | S k, String a r => String a (slice0 k r)
  | _, _ => EmptyString
  end.

(** The decimal text of a non-negative integer, as [String(n)] or string
    concatenation prints it. *)
Definition dec (n : N) : string := NilZero.string_of_uint (N.to_uint n).

(** A string or [undefined] is truthy when it is a non-empty string. *)
Definition truthy (v : option string) : bool :=
  match v with
  | Some s => negb (is_empty s)
  | None => false
  end.

(** [String(v)], which is also how [v] is read as the key of an object. *)
Definition to_string (v : option string) : string :=
  match v with
  | Some s => s
  | None => "undefined"
  end.

(** [v || d] on strings. *)
Definition or_else (v : option string) (d : string) : string :=
  match v with
  | Some s => if is_empty s then d else s
  | None => d
  end.

(** [n || d] on numbers: [undefined] and [0] are falsy. *)
Definition num_or (v : option Z) (d : Z) : Z :=
  match v with
  | Some n => if n =? 0 then d else n
  | None => d
  end.

End JS.

Import JS.

(** ** Data model *)

(** A value of [teams]: [{ createdAt }]. *)
Record Team := mkTeam { createdAt : string }.

(** An entry of a room log. A chat message has [name] and no [system]
    field; a notice has [system: true] and no [name]. *)
Record Message := mkMessage {
  id : string;
  system : bool;
  name : option string;
  text : string;
  ts : string
}.

(** The per-connection fields the handlers read and write on [socket],
    and the socket.io rooms the socket has joined. *)
Record Socket := mkSocket {
  teamCode : option string;
  userName : option string;
  rooms : gset string
}.

Record State := mkState {
  teams : gmap string Team;
  roomMessages : gmap string (list Message);
  roomUserCounts : gmap string Z;
  sockets : gmap nat Socket
}.

#[global] Instance Team_eq_dec : EqDecision Team.
Proof. solve_decision. Defined.
#[global] Instance Message_eq_dec : EqDecision Message.
Proof. solve_decision. Defined.
#[global] Instance Socket_eq_dec : EqDecision Socket.
Proof. solve_decision. Defined.

(** Events the server sends to clients. *)
Inductive ServerEvent :=
  | RoomHistory (log : list Message)
  | MessageEv (m : Message)
  | DeleteMessageEv (i : string).

(** The argument of the acknowledgement callback. *)
Inductive Ack :=
  | AckOk
  | AckError (error : string).

Definition MissingField : Ack := AckError "Missing teamCode or name".
Definition UnknownTeam : Ack := AckError "Team code not found".
Definition NotJoined : Ack := AckError "You are not in a room".
Definition EmptyMessage : Ack := AckError "Empty message".
Definition NotInRoom : Ack := AckError "Not in room".
Definition MissingId : Ack := AckError "No id".
Definition NotFound : Ack := AckError "Message not found".

(** What one run of a handler does: the new state, the events delivered
    (receiving socket, event) in order, and the acknowledgement. *)
Record Outcome := mkOutcome {
  st : State;
  deliveries : list (nat * ServerEvent);
  ack : option Ack
}.

(** ** Room state accessors *)

Definition room_log (s : State) (code : string) : list Message :=
  default [] (roomMessages s !! code).

Definition memberCount (s : State) (code : string) : Z :=
  default 0 (roomUserCounts s !! code).

(** The sockets that are in socket.io room [room]. *)
Definition room_members (s : State) (room : string) : list nat :=
  (filter (λ p : nat * Socket, room ∈ rooms p.2) (map_to_list (sockets s))).*1.

(** [io.to(room).emit(ev)] *)
Definition io_to_emit (s : State) (room : string) (ev : ServerEvent)
  : list (nat * ServerEvent) :=
  (λ sid, (sid, ev)) <$> room_members s room.

(** The number of connected sockets whose [teamCode] is [code]. *)
Definition attached (s : State) (code : string) : nat :=
  size (filter (λ p : nat * Socket, teamCode p.2 = Some code) (sockets s)).

Definition set_sockets (s : State) (sk : gmap nat Socket) : State :=
  mkState (teams s) (roomMessages s) (roomUserCounts s) sk.

Definition fail (s : State) (a : Ack) : Outcome := mkOutcome s [] (Some a).

(** ** The socket handlers *)

Definition sys_id (now rnd : N) : string :=
  "sys-" +:+ dec now +:+ "-" +:+ dec rnd.

Definition msg_id (now rnd : N) : string :=
  "m-" +:+ dec now +:+ "-" +:+ dec rnd.

(** [socket.on('join-room', ({ teamCode, name }, ack) => ...)]; [rnd] is
    [Math.floor(Math.random() * 1000)]. *)
Definition join_room (s : State) (sid : nat) (sk : Socket)
    (teamCode0 name0 : option string) (now rnd : N) (iso : string) : Outcome :=
  if negb (truthy teamCode0) || negb (truthy name0) then fail s MissingField
  else
    let code := toUpperCase (trim (to_string teamCode0)) in
    let nm := slice0 50 (trim (to_string name0)) in
    match teams s !! code with
    | None => fail s UnknownTeam
    | Some _ =>
        let sk' := mkSocket (Some code) (Some nm) ({[code]} ∪ rooms sk) in
        let counts :=
          <[code := num_or (roomUserCounts s !! code) 0 + 1]> (roomUserCounts s) in
        let history := default [] (roomMessages s !! code) in
        let joinNotice :=
          mkMessage (sys_id now rnd) true None (nm +:+ " joined the chat") iso in
        let s' := mkState (teams s)
                    (<[code := history ++ [joinNotice]]> (roomMessages s))
                    counts
                    (<[sid := sk']> (sockets s)) in
        mkOutcome s'
          ((sid, RoomHistory history) :: io_to_emit s' code (MessageEv joinNotice))
          (Some AckOk)
    end.

(** [socket.on('send-message', (payload, ack) => ...)]; [text0] is
    [payload && payload.text], [rnd] is [Math.floor(Math.random() * 10000)]. *)
Definition send_message (s : State) (sk : Socket)
    (text0 : option string) (now rnd : N) (iso : string) : Outcome :=
  if negb (truthy (teamCode sk)) || negb (truthy (userName sk)) then fail s NotJoined
  else
    let code := to_string (teamCode sk) in
    let txt := trim (or_else text0 EmptyString) in
    if is_empty txt then fail s EmptyMessage
    else
      let msg := mkMessage (msg_id now rnd) false (userName sk) txt iso in
      let s' := mkState (teams s)
                  (<[code := default [] (roomMessages s !! code) ++ [msg]]>
                     (roomMessages s))
                  (roomUserCounts s) (sockets s) in
      mkOutcome s' (io_to_emit s' code (MessageEv msg)) (Some AckOk).

(** [arr.findIndex(m => m.id === i)]; [None] stands for [-1]. *)
Fixpoint findIndex (i : string) (arr : list Message) : option nat :=
  match arr with
  | [] => None
  | m :: r => if decide (id m = i) then Some 0%nat else S <$> findIndex i r
  end.

(** [socket.on('delete-message', ({ id }, ack) => ...)] *)
Definition delete_message (s : State) (sk : Socket) (id0 : option string) : Outcome :=
  if negb (truthy (teamCode sk)) then fail s NotInRoom
  else if negb (truthy id0) then fail s MissingId
  else
    let code := to_string (teamCode sk) in
    let i := to_string id0 in
    let arr := default [] (roomMessages s !! code) in
    let s1 := mkState (teams s) (<[code := arr]> (roomMessages s))
                (roomUserCounts s) (sockets s) in
    match findIndex i arr with
    | None => fail s1 NotFound
    | Some idx =>
        (* arr.splice(idx, 1) *)
        let s' := mkState (teams s) (<[code := delete idx arr]> (roomMessages s))
                    (roomUserCounts s) (sockets s) in
        mkOutcome s' (io_to_emit s' code (DeleteMessageEv i)) (Some AckOk)
    end.

(** [socket.on('disconnect', () => ...)]. socket.io takes the socket out of
    its rooms and of the namespace before it fires the event, so the
    handler runs on [s] without the socket; [rnd] is
    [Math.floor(Math.random() * 1000)]. *)
Definition disconnect (s : State) (sid : nat) (sk : Socket)
    (now rnd : N) (iso : string) : Outcome :=
  let s0 := set_sockets s (delete sid (sockets s)) in
  if negb (truthy (teamCode sk)) then mkOutcome s0 [] None
  else
    let code := to_string (teamCode sk) in
    let n := Z.max 0 (num_or (roomUserCounts s0 !! code) 1 - 1) in
    let counts := <[code := n]> (roomUserCounts s0) in
    let leaveNotice :=
      mkMessage (sys_id now rnd) true None
        (or_else (userName sk) "A user" +:+ " left the chat") iso in
    if 0 <? n then
      let s' := mkState (teams s0)
                  (<[code := default [] (roomMessages s0 !! code) ++ [leaveNotice]]>
                     (roomMessages s0))
                  counts (sockets s0) in
      mkOutcome s' (io_to_emit s' code (MessageEv leaveNotice)) None
    else
      mkOutcome (mkState (teams s0) (delete code (roomMessages s0)) counts (sockets s0))
        [] None.

(** ** The registry of team codes *)

Definition chars : string := "ABCDEFGHJKLMNPQRSTUVWXYZ23456789".

(** [chars[d]], printed as string concatenation prints it: an index past
    the end reads [undefined]. *)
Definition char_at (d : nat) : string :=
  match String.get d chars with
  | Some c => String c EmptyString
  | None => "undefined"
  end.

(** [makeTeamCode(len)]. [draws] holds the values that the successive
    [Math.floor(Math.random() * chars.length)] take; the result is the code
    and the draws left, or [None] when the draws run out. *)
Fixpoint makeTeamCode (len : nat) (draws : list nat) : option (string * list nat) :=
  match len with
  | O => Some (EmptyString, draws)
  | S n =>
      match draws with
      | [] => None
      | d :: ds =>
          match makeTeamCode n ds with
          | Some (code, rest) => Some (char_at d +:+ code, rest)
          | None => None
          end
      end
  end.

(** [while (teams[code]) code = makeTeamCode(6);] with at most [fuel]
    turns of the loop. *)
Fixpoint regenerate (fuel : nat) (t : gmap string Team) (code : string)
    (draws : list nat) : option string :=
  match t !! code with
  | None => Some code
  | Some _ =>
      match fuel with
      | O => None
      | S f =>
          match makeTeamCode 6 draws with
          | Some (code', rest) => regenerate f t code' rest
          | None => None
          end
      end
  end.

(** The response of [POST /create-team]. *)
Inductive Response :=
  | Created (code : string)
  | Conflict.

(** [if (customCode) customCode = String(customCode).trim().toUpperCase();] *)
Definition normalize_custom (customCode : option string) : option string :=
  if truthy customCode then Some (toUpperCase (trim (to_string customCode)))
  else customCode.

(** [app.post('/create-team', ...)] on the registry [t]. Every turn of the
    loop uses six draws, so [length draws] turns are more than the draws
    allow: the result is [None] only when the draws run out. *)
Definition create_team (t : gmap string Team) (customCode0 : option string)
    (draws : list nat) (iso : string) : option (gmap string Team * Response) :=
  let customCode := normalize_custom customCode0 in
  if truthy customCode then
    let code := to_string customCode in
    match t !! code with
    | Some _ => Some (t, Conflict)
    | None => Some (<[code := mkTeam iso]> t, Created code)
    end
  else
    match makeTeamCode 6 draws with
    | Some (code0, rest) =>
        match regenerate (length draws) t code0 rest with
        | Some code => Some (<[code := mkTeam iso]> t, Created code)
        | None => None
        end
    | None => None
    end.

(** ** Events and runs of the server *)

Inductive Event :=
  | Connection (sid : nat)
  | JoinRoom (sid : nat) (teamCode0 name0 : option string) (now rnd : N) (iso : string)
  | SendMessage (sid : nat) (text0 : option string) (now rnd : N) (iso : string)
  | DeleteMessage (sid : nat) (id0 : option string)
  | Disconnect (sid : nat) (now rnd : N) (iso : string)
  | CreateTeam (customCode0 : option string) (draws : list nat) (iso : string).

(** One event on one state. [None]: the event cannot occur in [s] (a
    connection id in use, an event of a socket that is not connected) or
    the draws of a team creation ran out. *)
Definition handle (s : State) (e : Event) : option Outcome :=
  match e with
  | Connection sid =>
      match sockets s !! sid with
      | Some _ => None
      | None =>
          Some (mkOutcome (set_sockets s (<[sid := mkSocket None None ∅]> (sockets s)))
                  [] None)
      end
  | JoinRoom sid tc nm now rnd iso =>
      sk ← sockets s !! sid; Some (join_room s sid sk tc nm now rnd iso)
  | SendMessage sid txt now rnd iso =>
      sk ← sockets s !! sid; Some (send_message s sk txt now rnd iso)
  | DeleteMessage sid i =>
      sk ← sockets s !! sid; Some (delete_message s sk i)
  | Disconnect sid now rnd iso =>
      sk ← sockets s !! sid; Some (disconnect s sid sk now rnd iso)
  | CreateTeam cc draws iso =>
      r ← create_team (teams s) cc draws iso;
      Some (mkOutcome (mkState r.1 (roomMessages s) (roomUserCounts s) (sockets s))
              [] None)
  end.

(** The contract of [Math.random()], a number in [0, 1): a draw for a
    character is below [chars.length], the suffix of a notice id below
    1000 and that of a message id below 10000. *)
Definition event_ok (e : Event) : bool :=
  match e with
  | Connection _ | DeleteMessage _ _ => true
  | JoinRoom _ _ _ _ rnd _ | Disconnect _ _ rnd _ => (rnd <? 1000)%N
  | SendMessage _ _ _ rnd _ => (rnd <? 10000)%N
  | CreateTeam _ draws _ => forallb (λ d, d <? 32)%nat draws
  end.

(** The server starts with no room state and no connection; the registry
    file is only ever written by [/create-team], so a registry loaded from
    it is one that creations from the empty registry produce. *)
Definition initial : State := mkState ∅ ∅ ∅ ∅.

Inductive reachable : State → Prop :=
  | reach_initial : reachable initial
  | reach_step s e o :
      reachable s → event_ok e = true → handle s e = Some o → reachable (st o).

(** Runs a list of events, for concrete scenarios. *)
Fixpoint run (s : State) (es : list Event) : option State :=
  match es with
  | [] => Some s
  | e :: r => if event_ok e then o ← handle s e; run (st o) r else None
  end.

(** ** Vocabulary of the properties *)

Definition alphabet : list ascii := list_ascii_of_string chars.

(** A string of [n] characters of the alphabet. *)
Definition from_alphabet (n : nat) (code : string) : Prop :=
  String.length code = n ∧ ∀ a, a ∈ list_ascii_of_string code → a ∈ alphabet.

(** The code that [makeTeamCode] makes of the draws [ch]. *)
Definition code_of (ch : list nat) : string :=
  foldr (λ d code, char_at d +:+ code) EmptyString ch.

(** What holds of every reachable state: no empty code in the registry, a
    socket's teamCode is a registered code and a room the socket is in, no
    negative count, no empty id. *)
Record wf (s : State) : Prop := mkWf {
  wf_code_nonempty : teams s !! EmptyString = None;
  wf_socket : ∀ sid sk c,
    sockets s !! sid = Some sk → teamCode sk = Some c →
    is_Some (teams s !! c) ∧ c ∈ rooms sk;
  wf_counts : ∀ c n, roomUserCounts s !! c = Some n → 0 ≤ n;
  wf_ids : ∀ c m, m ∈ room_log s c → id m ≠ EmptyString
}.

(** The ids of a room's log, in order. *)
Definition ids (s : State) (c : string) : list string := id <$> room_log s c.

(** The id that the handler of [e] makes for the entry it may append. *)
Definition new_id (e : Event) : option string :=
  match e with
  | JoinRoom _ _ _ now rnd _ | Disconnect _ now rnd _ => Some (sys_id now rnd)
  | SendMessage _ _ now rnd _ => Some (msg_id now rnd)
  | Connection _ | DeleteMessage _ _ | CreateTeam _ _ _ => None
  end.

(** The states of the runs whose events all make ids that are new to the
    logs. *)
Inductive reachable_fresh : State → Prop :=
  | fresh_initial : reachable_fresh initial
  | fresh_step s e o :
      reachable_fresh s → event_ok e = true → handle s e = Some o →
      (∀ i c, new_id e = Some i → i ∉ ids s c) →
      reachable_fresh (st o).

(** The [Date.now()] that the handler of [e] reads. *)
Definition event_now (e : Event) : option N :=
  match e with
  | JoinRoom _ _ _ now _ _ | SendMessage _ _ now _ _ | Disconnect _ now _ _ => Some now
  | Connection _ | DeleteMessage _ _ | CreateTeam _ _ _ => None
  end.

(** The states of the runs in which the clock has moved on by a
    millisecond at least between two events that read it; the index is
    the last reading. *)
Inductive reachable_clock : N → State → Prop :=
  | clock_initial : reachable_clock 0 initial
  | clock_step t s e o :
      reachable_clock t s → event_ok e = true → handle s e = Some o →
      (∀ now, event_now e = Some now → (t < now)%N) →
      reachable_clock (default t (event_now e)) (st o).

(** Every id of a log was made at a reading of the clock up to [t]. *)
Definition stamped (t : N) (s : State) : Prop :=
  ∀ c i, i ∈ ids s c →
    ∃ t' r, (t' ≤ t)%N ∧ (i = sys_id t' r ∨ i = msg_id t' r).

Definition is_digit (a : ascii) : bool :=
  let n := N_of_ascii a in ((48 <=? n) && (n <=? 57))%N.

Fixpoint all_digits (s : string) : bool :=
  match s with
  | EmptyString => true
  | String a r => is_digit a && all_digits r
  end.

(** The join-room events of sockets that have already joined are the ones
    that [first_join] rules out. *)
Definition first_join (s : State) (e : Event) : bool :=
  match e with
  | JoinRoom sid _ _ _ _ _ =>
      match sockets s !! sid with
      | Some sk => match teamCode sk with None => true | Some _ => false end
      | None => true
      end
  | _ => true
  end.

(** The states of the runs in which no socket sends join-room after it has
    joined. *)
Inductive reachable_once : State → Prop :=
  | once_initial : reachable_once initial
  | once_step s e o :
      reachable_once s → event_ok e = true → first_join s e = true →
      handle s e = Some o → reachable_once (st o).

Fixpoint run_once (s : State) (es : list Event) : option State :=
  match es with
  | [] => Some s
  | e :: r =>
      if event_ok e && first_join s e then o ← handle s e; run_once (st o) r
      else None
  end.

Definition counts_ok (s : State) : Prop :=
  ∀ c, memberCount s c = Z.of_nat (attached s c).

(** ** Scenarios *)

(** A team and a connection; the socket then joins under a name of white
    space only. *)
Definition blank_name_run : list Event :=
  [CreateTeam (Some "TEST01") [] "t0"; Connection 1].

Definition blank_name_state : State := default initial (run initial blank_name_run).

Definition blank_name_join : Outcome :=
  join_room blank_name_state 1 (mkSocket None None ∅)
    (Some "TEST01") (Some " ") 5 7 "t1".

(** A team is created under the custom code "ab". *)
Definition short_code_run : list Event := [CreateTeam (Some "ab") [] "t0"].

Definition short_code_state : State := default initial (run initial short_code_run).

(** A chat in room TEST01: Alice and Bob join, Alice says hi. *)
Definition chat_run : list Event :=
  [CreateTeam (Some "test01") [] "t0"; Connection 1; Connection 2;
   JoinRoom 1 (Some "TEST01") (Some "Alice") 10 1 "t1";
   JoinRoom 2 (Some " test01 ") (Some "Bob") 11 2 "t2";
   SendMessage 1 (Some "hi") 12 34 "t3"].

Definition chat_state : State := default initial (run initial chat_run).

Definition bob : Socket := mkSocket (Some "TEST01") (Some "Bob") {["TEST01"]}.

(** Two joins in the same millisecond with the same random suffix. *)
Definition same_tick_run : list Event :=
  [CreateTeam (Some "TEST01") [] "t0"; Connection 1; Connection 2;
   JoinRoom 1 (Some "TEST01") (Some "Alice") 10 1 "t1";
   JoinRoom 2 (Some "TEST01") (Some "Bob") 10 1 "t1"].

Definition same_tick_state : State := default initial (run initial same_tick_run).

(** A socket that has joined TEAM01 and then joins TEAM02. *)
Definition rejoin_run : list Event :=
  [CreateTeam (Some "TEAM01") [] "t0"; CreateTeam (Some "TEAM02") [] "t0";
   Connection 1; JoinRoom 1 (Some "TEAM01") (Some "Alice") 10 1 "t1"].

Definition rejoin_state : State := default initial (run initial rejoin_run).

(** Alice joins TEST01 twice on the same connection. *)
Definition join_twice_run : list Event :=
  [CreateTeam (Some "TEST01") [] "t0"; Connection 1;
   JoinRoom 1 (Some "TEST01") (Some "Alice") 10 1 "t1";
   JoinRoom 1 (Some "TEST01") (Some "Alice") 11 2 "t2"].

Definition join_twice_state : State := default initial (run initial join_twice_run).

Definition alice : Socket := mkSocket (Some "TEST01") (Some "Alice") {["TEST01"]}.

(** After [join_twice_run] Alice, the only member, leaves; socket 2 then
    connects and joins the room. *)
Definition lone_leaver : Outcome := disconnect join_twice_state 1 alice 20 3 "t5".

Definition after_lone_leaver : State :=
  default initial (run (st lone_leaver) [Connection 2]).

Definition late_join : Outcome :=
  join_room after_lone_leaver 2 (mkSocket None None ∅)
    (Some "TEST01") (Some "Bob") 21 4 "t6".

(** Alice alone in TEST01 has said hi; socket 2 is connected and has not
    joined. *)
Definition solo_run : list Event :=
  [CreateTeam (Some "TEST01") [] "t0"; Connection 1; Connection 2;
   JoinRoom 1 (Some "TEST01") (Some "Alice") 10 1 "t1";
   SendMessage 1 (Some "hi") 12 34 "t3"].

Definition solo_state : State := default initial (run initial solo_run).

(** ** Vocabulary of the further properties *)

(** The normal form of a team code: [String(c).trim().toUpperCase()]. *)
Definition normalize (c : string) : string := toUpperCase (trim c).


(** The room that the handler of [e] works on: the code given to
    join-room in normal form, the teamCode of the socket for the other
    handlers. *)
Definition event_room (s : State) (e : Event) : option string :=
  match e with
  | JoinRoom _ tc _ _ _ _ => Some (normalize (to_string tc))
  | SendMessage sid _ _ _ _ | DeleteMessage sid _ | Disconnect sid _ _ _ =>
      sockets s !! sid ≫= teamCode
  | Connection _ | CreateTeam _ _ _ => None
  end.

(** A join or leave notice, as the handlers build it. *)
Definition is_notice (m : Message) : Prop :=
  system m = true ∧ name m = None ∧
  ∃ now rnd nm, id m = sys_id now rnd ∧
    (text m = nm +:+ " joined the chat" ∨ text m = nm +:+ " left the chat").

(** A chat message, as send-message builds it. *)
Definition is_chat (m : Message) : Prop :=
  system m = false ∧ (∃ now rnd, id m = msg_id now rnd) ∧
  (∃ n, name m = Some n ∧ n ≠ EmptyString ∧ (String.length n ≤ 50)%nat) ∧
  text m ≠ EmptyString ∧ trim (text m) = text m.

(** The fields of a socket: both unset and no room, or both set, the
    teamCode a room of the socket and the name of 50 characters at most;
    every room of the socket is a registered code. *)
Definition session_ok (s : State) (sk : Socket) : Prop :=
  match teamCode sk, userName sk with
  | None, None => rooms sk = ∅
  | Some c, Some n => c ∈ rooms sk ∧ (String.length n ≤ 50)%nat
  | _, _ => False
  end ∧ ∀ r, r ∈ rooms sk → is_Some (teams s !! r).

(** The number of notices in a log. *)
Definition notices (l : list Message) : nat :=
  length (filter (λ m, system m = true) l).

(** The events that take nothing out of a log. *)
Definition keeps_entries (e : Event) : bool :=
  match e with
  | Disconnect _ _ _ _ | DeleteMessage _ _ => false
  | _ => true
  end.

(** The states of the runs without disconnect and without delete. *)
Inductive reachable_growing : State → Prop :=
  | growing_initial : reachable_growing initial
  | growing_step s e o :
      reachable_growing s → event_ok e = true → keeps_entries e = true →
      handle s e = Some o → reachable_growing (st o).

Fixpoint run_growing (s : State) (es : list Event) : option State :=
  match es with
  | [] => Some s
  | e :: r =>
      if event_ok e && keeps_entries e then o ← handle s e; run_growing (st o) r
      else None
  end.

(** Runs a list of events under a clock that moves on between any two
    readings; the result carries the last reading. *)
Fixpoint run_clock (t : N) (s : State) (es : list Event) : option (N * State) :=
  match es with
  | [] => Some (t, s)
  | e :: r =>
      if event_ok e && match event_now e with
                       | Some now => (t <? now)%N
                       | None => true
                       end
      then o ← handle s e; run_clock (default t (event_now e)) (st o) r
      else None
  end.

(** After the chat, Alice and then Bob leave. *)
Definition leave_run : list Event :=
  chat_run ++ [Disconnect 1 20 3 "t5"; Disconnect 2 21 4 "t6"].

Definition leave_state : State := default initial (run initial leave_run).

(** * Properties *)

Lemma run_reachable es : ∀ s s', reachable s → run s es = Some s' → reachable s'.
Proof.
  induction es as [|e es IH]; intros s s' Hs Hr; simpl in Hr.
  - by inversion Hr; subst.
  - destruct (event_ok e) eqn:He; [|done].
    destruct (handle s e) as [o|] eqn:Ho; [|done]. simpl in Hr.
    eapply IH; [|exact Hr]. by eapply reach_step.
Qed.

(** ** Basic facts on strings and truthiness *)

Section StringFacts.

Lemma is_empty_true s : is_empty s = true ↔ s = EmptyString.
Proof. destruct s; simpl; split; congruence. Qed.

Lemma is_empty_false s : is_empty s = false ↔ s ≠ EmptyString.
Proof. destruct s; simpl; split; congruence. Qed.

Lemma truthy_true v : truthy v = true ↔ ∃ s, v = Some s ∧ s ≠ EmptyString.
Proof.
  destruct v as [s|]; simpl.
  - rewrite negb_true_iff, is_empty_false. split; [eauto|].
    by intros (s' & [= <-] & ?).
  - split; [done|]. by intros (? & ? & ?).
Qed.

Lemma truthy_false v : truthy v = false ↔ v = None ∨ v = Some EmptyString.
Proof.
  destruct v as [s|]; simpl.
  - rewrite negb_false_iff, is_empty_true. split; [intros ->; by right|].
    by intros [?|[= ->]].
  - split; [by left|done].
Qed.

Lemma append_nonempty_l s1 s2 : s1 ≠ EmptyString → s1 +:+ s2 ≠ EmptyString.
Proof. by destruct s1. Qed.

Lemma sys_id_nonempty now rnd : sys_id now rnd ≠ EmptyString.
Proof. done. Qed.

Lemma msg_id_nonempty now rnd : msg_id now rnd ≠ EmptyString.
Proof. done. Qed.

End StringFacts.

(** ** [findIndex] and [splice] *)

Section FindIndex.

Lemma findIndex_None i (arr : list Message) :
  findIndex i arr = None ↔ ∀ m, m ∈ arr → id m ≠ i.
Proof.
  induction arr as [|x arr IH]; simpl.
  - split; [|done]. intros _ m Hm. by apply not_elem_of_nil in Hm.
  - destruct (decide (id x = i)) as [Hx|Hx].
    + split; [done|]. intros H. destruct (H x); [by left|done].
    + rewrite fmap_None, IH. split.
      * intros H m [->|Hm]%elem_of_cons; auto.
      * intros H m Hm. apply H. by right.
Qed.

(** The index found is that of the first entry with the id; taking it out
    leaves the entries before and after it as they were. *)
Lemma findIndex_Some i (arr : list Message) idx :
  findIndex i arr = Some idx →
  ∃ l1 x l2, arr = l1 ++ x :: l2 ∧ length l1 = idx ∧ id x = i ∧
             (∀ y, y ∈ l1 → id y ≠ i) ∧ delete idx arr = l1 ++ l2.
Proof.
  revert idx. induction arr as [|m arr IH]; intros idx; simpl; [done|].
  destruct (decide (id m = i)) as [Hm|Hm].
  - intros [= <-]. exists [], m, arr. repeat split; try done.
    intros y Hy. by apply not_elem_of_nil in Hy.
  - destruct (findIndex i arr) as [k|] eqn:Hk; [|done]. intros [= <-].
    destruct (IH k eq_refl) as (l1 & x & l2 & -> & Hlen & Hx & Hl1 & Hdel).
    exists (m :: l1), x, l2. repeat split; simpl; try done.
    + by rewrite Hlen.
    + intros y [->|Hy]%elem_of_cons; auto.
    + by rewrite Hdel.
Qed.

Lemma findIndex_is_Some i (arr : list Message) m :
  m ∈ arr → id m = i → is_Some (findIndex i arr).
Proof.
  intros Hm Hi. destruct (findIndex i arr) eqn:H; [eauto|].
  rewrite findIndex_None in H. by destruct (H m Hm).
Qed.

End FindIndex.

(** ** Deliveries of a broadcast *)

Lemma room_members_spec s room sid :
  sid ∈ room_members s room ↔ ∃ sk, sockets s !! sid = Some sk ∧ room ∈ rooms sk.
Proof.
  unfold room_members. rewrite list_elem_of_fmap. split.
  - intros ([sid' sk] & -> & [H1 H2%elem_of_map_to_list]%list_elem_of_filter).
    by exists sk.
  - intros (sk & H1 & H2). exists (sid, sk). split; [done|].
    apply list_elem_of_filter. split; [done|]. by apply elem_of_map_to_list.
Qed.

Lemma io_to_emit_spec s room ev d :
  d ∈ io_to_emit s room ev ↔ d.2 = ev ∧ d.1 ∈ room_members s room.
Proof.
  unfold io_to_emit. rewrite list_elem_of_fmap. destruct d as [sid ev']. simpl. split.
  - by intros (? & [= -> ->] & ?).
  - intros [-> ?]. eauto.
Qed.

(** ** Code generation *)

Section Generation.

Lemma char_at_in_range d :
  (d < 32)%nat → ∃ a, char_at d = String a EmptyString ∧ a ∈ alphabet.
Proof.
  intros Hd. unfold char_at.
  do 32 (destruct d as [|d];
         [eexists; split; [reflexivity|]; vm_compute; repeat constructor|]).
  lia.
Qed.

Lemma char_at_nonempty d : char_at d ≠ EmptyString.
Proof. unfold char_at. by destruct (String.get d chars). Qed.

Lemma makeTeamCode_nonempty n draws code rest :
  makeTeamCode (S n) draws = Some (code, rest) → code ≠ EmptyString.
Proof.
  simpl. destruct draws as [|d ds]; [done|].
  destruct (makeTeamCode n ds) as [[c r]|]; [|done].
  intros [= <- <-]. apply append_nonempty_l, char_at_nonempty.
Qed.

Lemma makeTeamCode_from_alphabet n draws code rest :
  Forall (λ d, d < 32)%nat draws →
  makeTeamCode n draws = Some (code, rest) →
  from_alphabet n code ∧ Forall (λ d, d < 32)%nat rest.
Proof.
  revert draws code rest. induction n as [|n IH]; intros draws code rest Hd; simpl.
  - intros [= <- <-]. split; [|done]. split; [done|].
    intros a Ha. by apply not_elem_of_nil in Ha.
  - destruct draws as [|d ds]; [done|].
    destruct (makeTeamCode n ds) as [[c r]|] eqn:Hc; [|done].
    intros [= <- <-]. apply Forall_cons in Hd as [Hd Hds].
    destruct (IH _ _ _ Hds Hc) as [[Hlen Hin] Hr]. split; [|done].
    destruct (char_at_in_range d Hd) as (a & -> & Ha).
    change (String a EmptyString +:+ c) with (String a c). split; simpl.
    + by rewrite Hlen.
    + intros b [->|Hb]%elem_of_cons; auto.
Qed.

(** Whatever the loop returns is not in the registry, and is the code it
    started from or one that [makeTeamCode 6] made. *)
Lemma regenerate_spec (P : string → list nat → Prop) fuel t code draws c :
  P code draws →
  (∀ ds c' r, (∃ c0, P c0 ds) → makeTeamCode 6 ds = Some (c', r) → P c' r) →
  regenerate fuel t code draws = Some c →
  t !! c = None ∧ ∃ r, P c r.
Proof.
  intros Hcode Hmk. revert code draws Hcode.
  induction fuel as [|f IH]; intros code draws Hcode; cbn [regenerate];
    destruct (t !! code) eqn:Ht.
  - done.
  - intros [= <-]. eauto.
  - destruct (makeTeamCode 6 draws) as [[c' r]|] eqn:Hc; [|done].
    intros H. eapply IH; [|exact H]. eapply Hmk; eauto.
  - intros [= <-]. eauto.
Qed.

(** What [create_team] does to the registry: nothing on a conflict,
    otherwise one entry is added under a code that was free. *)
Lemma create_team_inv t cc draws iso t' r :
  create_team t cc draws iso = Some (t', r) →
  (r = Conflict ∧ t' = t) ∨
  (∃ code, r = Created code ∧ code ≠ EmptyString ∧ t !! code = None ∧
           t' = <[code := mkTeam iso]> t).
Proof.
  unfold create_team.
  set (cc' := normalize_custom cc).
  destruct (truthy cc') eqn:Hcc.
  - apply truthy_true in Hcc as (c & -> & Hc). cbn [to_string].
    destruct (t !! c) eqn:Ht; intros [= <- <-]; [by left|].
    right. by exists c.
  - destruct (makeTeamCode 6 draws) as [[c0 rest]|] eqn:H0; [|done].
    destruct (regenerate _ t c0 rest) as [c|] eqn:Hc; [|done].
    intros [= <- <-]. right. exists c.
    apply (regenerate_spec (λ c _, c ≠ EmptyString)) in Hc as [? [_ ?]]; [done|..].
    + by eapply makeTeamCode_nonempty.
    + intros ???? ?. by eapply makeTeamCode_nonempty.
Qed.

End Generation.

(** ** Invariants of every reachable state *)

Lemma default_lookup_insert {A} (d : A) (m : gmap string A) c c' x :
  default d (<[c := x]> m !! c') = if decide (c = c') then x else default d (m !! c').
Proof. rewrite lookup_insert. by case_decide. Qed.

Lemma room_log_insert t rm cnt sk c l c' :
  room_log (mkState t (<[c := l]> rm) cnt sk) c' =
  if decide (c = c') then l else room_log (mkState t rm cnt sk) c'.
Proof. apply default_lookup_insert. Qed.

Lemma room_log_delete t rm cnt sk c c' :
  room_log (mkState t (delete c rm) cnt sk) c' =
  if decide (c = c') then [] else room_log (mkState t rm cnt sk) c'.
Proof. unfold room_log. simpl. rewrite lookup_delete. by case_decide. Qed.

Lemma num_or_nonneg v d : (∀ n, v = Some n → 0 ≤ n) → 0 ≤ d → 0 ≤ num_or v d.
Proof.
  intros Hv Hd. destruct v as [n|]; simpl; [|done].
  destruct (n =? 0); [done|]. by apply Hv.
Qed.

Lemma wf_teamCode_truthy s sid sk c :
  wf s → sockets s !! sid = Some sk → teamCode sk = Some c → c ≠ EmptyString.
Proof.
  intros Hwf Hsk Hc ->. destruct (wf_socket s Hwf _ _ _ Hsk Hc) as [[? Ht] _].
  by rewrite (wf_code_nonempty s Hwf) in Ht.
Qed.

Lemma wf_initial : wf initial.
Proof.
  split; simpl; try done.
  intros c m Hm. unfold room_log in Hm. simpl in Hm.
  rewrite lookup_empty in Hm. by apply not_elem_of_nil in Hm.
Qed.

Lemma wf_join_room s sid sk tc nm now rnd iso :
  wf s → sockets s !! sid = Some sk → wf (st (join_room s sid sk tc nm now rnd iso)).
Proof.
  intros Hwf Hsk. unfold join_room.
  destruct (negb (truthy tc) || negb (truthy nm)); [done|].
  set (code := toUpperCase _). set (name1 := slice0 _ _).
  destruct (teams s !! code) as [tm|] eqn:Ht; [|done].
  destruct Hwf as [H1 H2 H3 H4]. split; simpl.
  - done.
  - intros sid' sk' c. rewrite lookup_insert. case_decide as Hs.
    + intros [= <-] [= <-]. split; [by rewrite Ht|].
      apply elem_of_union_l. by apply elem_of_singleton.
    + apply H2.
  - intros c n. rewrite lookup_insert. case_decide as Hc; [|apply H3].
    intros [= <-]. pose proof (num_or_nonneg (roomUserCounts s !! code) 0 (H3 code)). lia.
  - intros c m. rewrite room_log_insert. case_decide as Hc; [|apply H4].
    intros [Hm|Hm%list_elem_of_singleton]%elem_of_app.
    + by apply (H4 code).
    + subst m. apply sys_id_nonempty.
Qed.

Lemma wf_send_message s sk txt now rnd iso :
  wf s → wf (st (send_message s sk txt now rnd iso)).
Proof.
  intros Hwf. unfold send_message.
  destruct (negb (truthy (teamCode sk)) || negb (truthy (userName sk))); [done|].
  destruct (is_empty _); [done|].
  destruct Hwf as [H1 H2 H3 H4]. split; simpl; try done.
  intros c m. rewrite room_log_insert. case_decide as Hc; [|apply H4].
  intros [Hm|Hm%list_elem_of_singleton]%elem_of_app.
  - by apply (H4 (to_string (teamCode sk))).
  - subst m. apply msg_id_nonempty.
Qed.

Lemma wf_delete_message s sk i :
  wf s → wf (st (delete_message s sk i)).
Proof.
  intros Hwf. unfold delete_message.
  destruct (negb (truthy (teamCode sk))); [done|].
  destruct (negb (truthy i)); [done|].
  set (code := to_string (teamCode sk)). set (arr := default [] _).
  destruct Hwf as [H1 H2 H3 H4].
  destruct (findIndex _ arr) as [idx|] eqn:Hidx; split; simpl; try done.
  - intros c m. rewrite room_log_insert. case_decide as Hc; [|apply H4].
    apply findIndex_Some in Hidx as (l1 & x & l2 & Harr & _ & _ & _ & ->).
    intros Hm. apply (H4 code). unfold room_log. fold arr. rewrite Harr.
    apply elem_of_app in Hm as [Hm|Hm]; apply elem_of_app; [by left|].
    right. by right.
  - intros c m. rewrite room_log_insert. case_decide as Hc; [|apply H4].
    apply (H4 code).
Qed.

Lemma wf_disconnect s sid sk now rnd iso :
  wf s → wf (st (disconnect s sid sk now rnd iso)).
Proof.
  intros [H1 H2 H3 H4]. unfold disconnect.
  assert (Hsock : ∀ sid' sk' c,
    delete sid (sockets s) !! sid' = Some sk' → teamCode sk' = Some c →
    is_Some (teams s !! c) ∧ c ∈ rooms sk').
  { intros sid' sk' c [_ Hl]%lookup_delete_Some. by apply (H2 sid'). }
  destruct (negb (truthy (teamCode sk))); [by split|].
  set (code := to_string (teamCode sk)). simpl.
  set (n := Z.max 0 _).
  assert (Hcnt : ∀ c k, <[code := n]> (roomUserCounts s) !! c = Some k → 0 ≤ k).
  { intros c k. rewrite lookup_insert. case_decide; [|apply H3].
    intros [= <-]. subst n. lia. }
  destruct (0 <? n); split; simpl; try done.
  - intros c m. rewrite room_log_insert. case_decide as Hc; [|apply H4].
    intros [Hm|Hm%list_elem_of_singleton]%elem_of_app.
    + by apply (H4 code).
    + subst m. apply sys_id_nonempty.
  - intros c m. rewrite room_log_delete. case_decide as Hc; [|apply H4].
    intros Hm. by apply not_elem_of_nil in Hm.
Qed.

Lemma wf_step s e o : wf s → handle s e = Some o → wf (st o).
Proof.
  intros Hwf. destruct e; simpl.
  - destruct (sockets s !! sid) eqn:Hs; [done|]. intros [= <-].
    destruct Hwf as [H1 H2 H3 H4]. split; simpl; try done.
    intros sid' sk c. rewrite lookup_insert. case_decide; [by intros [= <-]|].
    apply H2.
  - destruct (sockets s !! sid) eqn:Hs; [|done]. intros [= <-].
    by apply wf_join_room.
  - destruct (sockets s !! sid) eqn:Hs; [|done]. intros [= <-].
    by apply wf_send_message.
  - destruct (sockets s !! sid) eqn:Hs; [|done]. intros [= <-].
    by apply wf_delete_message.
  - destruct (sockets s !! sid) eqn:Hs; [|done]. intros [= <-].
    by apply wf_disconnect.
  - destruct (create_team _ _ _ _) as [[t' r]|] eqn:Hc; [|done]. intros [= <-].
    destruct Hwf as [H1 H2 H3 H4].
    apply create_team_inv in Hc as [[-> ->]|(code & -> & Hne & Hfree & ->)];
      split; simpl; try done.
    + by rewrite lookup_insert_ne.
    + intros sid sk c Hsk Htc. destruct (H2 _ _ _ Hsk Htc) as [Ht Hr].
      split; [|done]. rewrite lookup_insert. by case_decide.
Qed.

Lemma reachable_wf s : reachable s → wf s.
Proof.
  induction 1 as [|s e o _ IH _ Hh]; [apply wf_initial|by eapply wf_step].
Qed.

(** ** join-room: the failure cases *)

(** C4. join fails with MissingField when teamCode or name is absent or
    empty, and otherwise with UnknownTeam when the trimmed, uppercased
    teamCode is not a key of the registry; a join that is not acknowledged
    with ok leaves the whole state, so every memberCount and every room
    log, as it was and delivers no event to any socket. *)
Theorem join_room_failures s sid sk tc nm now rnd iso :
  let o := join_room s sid sk tc nm now rnd iso in
  (tc = None ∨ tc = Some EmptyString ∨ nm = None ∨ nm = Some EmptyString →
     ack o = Some MissingField) ∧
  (truthy tc = true → truthy nm = true →
     teams s !! toUpperCase (trim (to_string tc)) = None →
     ack o = Some UnknownTeam) ∧
  (ack o ≠ Some AckOk → st o = s ∧ deliveries o = []).
Proof.
  unfold join_room. repeat split.
  - intros H.
    assert (truthy tc = false ∨ truthy nm = false) as [->| ->].
    { rewrite !truthy_false. tauto. }
    + done.
    + by rewrite orb_true_r.
  - intros -> -> ->. done.
  - destruct (negb (truthy tc) || negb (truthy nm)); [done|].
    by destruct (teams s !! _).
  - destruct (negb (truthy tc) || negb (truthy nm)); [done|].
    by destruct (teams s !! _).
Qed.

Lemma join_room_failures_witness :
  let s := mkState {["TEST01" := mkTeam "t0"]} ∅ ∅ {[1%nat := mkSocket None None ∅]} in
  let o := join_room s 1 (mkSocket None None ∅) (Some " nope42 ") (Some "Alice") 5 7 "t1" in
  ack o = Some UnknownTeam ∧ st o = s ∧ deliveries o = [].
Proof.
  intros s o.
  destruct (join_room_failures s 1 (mkSocket None None ∅) (Some " nope42 ")
              (Some "Alice") 5 7 "t1") as (_ & H2 & H3).
  assert (H : ack o = Some UnknownTeam).
  { apply H2; [reflexivity|reflexivity|vm_compute; reflexivity]. }
  split; [exact H|]. apply H3. fold o. rewrite H. discriminate.
Defined.

(** ** send-message: the failure cases *)

(** C5. The code breaks the claim (code_bug). join-room tests the name
    before it trims it, so a join under a name of white space only is
    acknowledged with ok and leaves the socket with an empty userName; the
    socket is in the room and counted, and its delete-message is accepted,
    yet its send-message is refused with the not-in-a-room error although
    the session is joined. *)
Lemma send_refused_after_join :
  run initial blank_name_run = Some blank_name_state ∧
  handle blank_name_state (JoinRoom 1 (Some "TEST01") (Some " ") 5 7 "t1")
    = Some blank_name_join ∧
  ack blank_name_join = Some AckOk ∧
  memberCount (st blank_name_join) "TEST01" = 1 ∧
  ∃ sk, sockets (st blank_name_join) !! 1%nat = Some sk ∧
        teamCode sk = Some "TEST01" ∧ userName sk = Some EmptyString ∧
        "TEST01" ∈ rooms sk ∧
        ack (delete_message (st blank_name_join) sk (Some "sys-5-7")) = Some AckOk ∧
        ack (send_message (st blank_name_join) sk (Some "hi") 6 8 "t2")
          = Some NotJoined.
Proof.
  split; [vm_compute; reflexivity|]. split; [vm_compute; reflexivity|].
  split; [vm_compute; reflexivity|]. split; [vm_compute; reflexivity|].
  exists (mkSocket (Some "TEST01") (Some EmptyString) {["TEST01"]}).
  split; [vm_compute; reflexivity|]. split; [reflexivity|]. split; [reflexivity|].
  split; [cbn [rooms]; by apply elem_of_singleton|].
  split; vm_compute; reflexivity.
Qed.

(** The checks of send-message, as the handler makes them: it answers with
    the not-in-a-room error exactly when the socket's teamCode or userName
    is unset or empty; past that check it answers with the empty-message
    error when the trimmed text is empty; a send that is not acknowledged
    with ok leaves the state as it was and delivers nothing. *)
Theorem send_message_failures s sk txt now rnd iso :
  let o := send_message s sk txt now rnd iso in
  (ack o = Some NotJoined ↔
     truthy (teamCode sk) = false ∨ truthy (userName sk) = false) ∧
  (truthy (teamCode sk) = true → truthy (userName sk) = true →
     trim (or_else txt EmptyString) = EmptyString → ack o = Some EmptyMessage) ∧
  (ack o ≠ Some AckOk → st o = s ∧ deliveries o = []).
Proof.
  intros o. subst o. unfold send_message.
  destruct (truthy (teamCode sk)) eqn:Ht, (truthy (userName sk)) eqn:Hu; simpl.
  - destruct (is_empty (trim (or_else txt EmptyString))) eqn:He; simpl.
    + split; [split; [done|by intros [?|?]]|]. split; [done|done].
    + apply is_empty_false in He.
      split; [split; [done|by intros [?|?]]|]. split; [done|].
      intros H. by destruct H.
  - split; [split; auto|]. split; done.
  - split; [split; auto|]. split; done.
  - split; [split; auto|]. split; done.
Qed.

Lemma send_message_failures_witness :
  let s := mkState {["TEST01" := mkTeam "t0"]} ∅ ∅ {[1%nat := mkSocket None None ∅]} in
  let o := send_message s (mkSocket None None ∅) (Some "hi") 5 7 "t1" in
  ack o = Some NotJoined ∧ st o = s ∧ deliveries o = [].
Proof.
  intros s o.
  destruct (send_message_failures s (mkSocket None None ∅) (Some "hi") 5 7 "t1")
    as (H1 & _ & H3).
  assert (H : ack o = Some NotJoined).
  { apply H1. left. reflexivity. }
  split; [exact H|]. apply H3. fold o. rewrite H. discriminate.
Defined.

(** ** delete-message *)

Section Delete.

(** The successful run of the handler, once the index is known. *)
Lemma delete_message_found s sk code i idx :
  teamCode sk = Some code → code ≠ EmptyString → i ≠ EmptyString →
  findIndex i (room_log s code) = Some idx →
  let s' := mkState (teams s)
              (<[code := delete idx (room_log s code)]> (roomMessages s))
              (roomUserCounts s) (sockets s) in
  delete_message s sk (Some i) =
    mkOutcome s' (io_to_emit s' code (DeleteMessageEv i)) (Some AckOk).
Proof.
  intros Hc Hcode Hi Hidx. unfold delete_message. rewrite Hc.
  assert (truthy (Some code) = true) as -> by (apply truthy_true; eauto).
  assert (truthy (Some i) = true) as -> by (apply truthy_true; eauto).
  simpl negb. cbv iota. cbn [to_string].
  unfold room_log in Hidx. by rewrite Hidx.
Qed.

Lemma delete_message_missing s sk code i :
  teamCode sk = Some code → code ≠ EmptyString → i ≠ EmptyString →
  findIndex i (room_log s code) = None →
  let s' := mkState (teams s) (<[code := room_log s code]> (roomMessages s))
              (roomUserCounts s) (sockets s) in
  delete_message s sk (Some i) = fail s' NotFound.
Proof.
  intros Hc Hcode Hi Hidx. unfold delete_message. rewrite Hc.
  assert (truthy (Some code) = true) as -> by (apply truthy_true; eauto).
  assert (truthy (Some i) = true) as -> by (apply truthy_true; eauto).
  simpl negb. cbv iota. cbn [to_string].
  unfold room_log in Hidx. by rewrite Hidx.
Qed.

(** Distinct ids pin the entry down: no other entry has the id of the one
    taken out. *)
Lemma nodup_ids_split (l1 l2 : list Message) x m :
  NoDup (id <$> (l1 ++ x :: l2)) → m ∈ l1 ++ x :: l2 → id m = id x →
  m = x ∧ m ∉ l1 ++ l2.
Proof.
  rewrite fmap_app, fmap_cons. intros Hnd Hm Hid.
  apply NoDup_app in Hnd as (Hn1 & Hn12 & Hn2).
  apply NoDup_cons in Hn2 as [Hx2 Hn2].
  assert (Hx1 : id x ∉ id <$> l1).
  { intros H. apply (Hn12 _ H). by left. }
  assert (Hnot : ∀ y, y ∈ l1 ++ l2 → id y ≠ id x).
  { intros y [Hy|Hy]%elem_of_app Hyx.
    - apply Hx1. rewrite <- Hyx. by apply list_elem_of_fmap_2.
    - apply Hx2. rewrite <- Hyx. by apply list_elem_of_fmap_2. }
  assert (m = x) as ->.
  { apply elem_of_app in Hm as [Hm|[->|Hm]%elem_of_cons]; [|done|].
    - destruct (Hnot m); [apply elem_of_app; by left|done].
    - destruct (Hnot m); [apply elem_of_app; by right|done]. }
  split; [done|]. intros H. by destruct (Hnot x H).
Qed.

End Delete.

(** C6. For a joined socket, delete fails with MissingId when the id is
    absent (or empty) and with NotFound when no entry of the caller's room
    log has the id, and then every room log is as before and nothing is
    delivered; when an entry has the id, the first such entry is taken out
    and the entries before and after it keep their order, the other rooms'
    logs are untouched, and every socket attached to the room is sent a
    delete-message event that carries the id and nothing else. *)
Theorem delete_message_outcomes s sid sk code i0 :
  reachable s → sockets s !! sid = Some sk → teamCode sk = Some code →
  let o := delete_message s sk i0 in
  (truthy i0 = false → ack o = Some MissingId ∧ st o = s ∧ deliveries o = []) ∧
  (∀ i, i0 = Some i → i ≠ EmptyString →
        (∀ m, m ∈ room_log s code → id m ≠ i) →
        ack o = Some NotFound ∧ (∀ c, room_log (st o) c = room_log s c) ∧
        deliveries o = []) ∧
  (∀ i, i0 = Some i → (∃ m, m ∈ room_log s code ∧ id m = i) →
        ack o = Some AckOk ∧
        (∃ l1 x l2, room_log s code = l1 ++ x :: l2 ∧ id x = i ∧
                    (∀ y, y ∈ l1 → id y ≠ i) ∧
                    room_log (st o) code = l1 ++ l2) ∧
        (∀ c, c ≠ code → room_log (st o) c = room_log s c) ∧
        (∀ d, d ∈ deliveries o → d.2 = DeleteMessageEv i) ∧
        (∀ sid' sk', sockets s !! sid' = Some sk' → teamCode sk' = Some code →
                     (sid', DeleteMessageEv i) ∈ deliveries o)).
Proof.
  intros Hr Hsk Hc o. subst o. pose proof (reachable_wf s Hr) as Hwf.
  pose proof (wf_teamCode_truthy s sid sk code Hwf Hsk Hc) as Hcode.
  repeat apply conj.
  - intros Hi. unfold delete_message. rewrite Hc.
    assert (truthy (Some code) = true) as -> by (apply truthy_true; eauto).
    by rewrite Hi.
  - intros i -> Hi Hno. apply findIndex_None in Hno.
    rewrite (delete_message_missing s sk code i) by done. simpl.
    repeat split. intros c. rewrite room_log_insert. by case_decide; subst.
  - intros i -> (m & Hm & Hid).
    assert (Hi : i ≠ EmptyString) by (subst i; by apply (wf_ids s Hwf code)).
    destruct (findIndex_is_Some i _ m Hm Hid) as [idx Hidx].
    rewrite (delete_message_found s sk code i idx) by done. simpl.
    apply findIndex_Some in Hidx as (l1 & x & l2 & Hlog & _ & Hx & Hl1 & Hdel).
    repeat apply conj.
    + done.
    + exists l1, x, l2. repeat split; try done.
      rewrite room_log_insert. by case_decide.
    + intros c Hne. rewrite room_log_insert. by case_decide.
    + by intros d [? _]%io_to_emit_spec.
    + intros sid' sk' Hsk' Hc'. apply io_to_emit_spec. split; [done|].
      apply room_members_spec. exists sk'. split; [done|].
      by apply (wf_socket s Hwf sid' sk' code).
Qed.

(** C10. delete has no authorship check: a joined socket that gives the id
    of any entry of its room's log, a chat message of another member or a
    join or leave notice alike, is acknowledged with ok, and the log loses
    the first entry with that id, which is that very entry when the ids of
    the log are distinct. Nothing is asked of the entry's name or system
    flag, nor of the caller's userName. *)
Theorem delete_any_author s sid sk code m :
  reachable s → sockets s !! sid = Some sk → teamCode sk = Some code →
  m ∈ room_log s code →
  let o := delete_message s sk (Some (id m)) in
  ack o = Some AckOk ∧
  ∃ l1 x l2, room_log s code = l1 ++ x :: l2 ∧ id x = id m ∧
             room_log (st o) code = l1 ++ l2 ∧
             (NoDup (id <$> room_log s code) →
                x = m ∧ m ∉ room_log (st o) code).
Proof.
  intros Hr Hsk Hc Hm o. subst o. pose proof (reachable_wf s Hr) as Hwf.
  pose proof (wf_teamCode_truthy s sid sk code Hwf Hsk Hc) as Hcode.
  pose proof (wf_ids s Hwf code m Hm) as Hi.
  destruct (findIndex_is_Some (id m) _ m Hm eq_refl) as [idx Hidx].
  rewrite (delete_message_found s sk code (id m) idx) by done. simpl.
  split; [done|].
  apply findIndex_Some in Hidx as (l1 & x & l2 & Hlog & _ & Hx & _ & Hdel).
  exists l1, x, l2. rewrite room_log_insert, decide_True by done.
  repeat split; try done.
  - rewrite Hlog in *. by destruct (nodup_ids_split l1 l2 x m).
  - rewrite Hlog, Hdel in *. by destruct (nodup_ids_split l1 l2 x m).
Qed.

Lemma chat_state_reachable : reachable chat_state.
Proof.
  apply (run_reachable chat_run initial); [constructor|].
  vm_compute. reflexivity.
Qed.

Lemma delete_message_outcomes_witness :
  ack (delete_message chat_state bob (Some "m-12-34")) = Some AckOk.
Proof.
  destruct (delete_message_outcomes chat_state 2 bob "TEST01" (Some "m-12-34"))
    as (_ & _ & H).
  - exact chat_state_reachable.
  - vm_compute. reflexivity.
  - reflexivity.
  - apply (H "m-12-34" eq_refl).
    exists (mkMessage "m-12-34" false (Some "Alice") "hi" "t3").
    split; [|reflexivity]. vm_compute. repeat constructor.
Defined.

Lemma delete_any_author_witness :
  ack (delete_message chat_state bob (Some "sys-10-1")) = Some AckOk.
Proof.
  apply (delete_any_author chat_state 2 bob "TEST01"
           (mkMessage "sys-10-1" true None "Alice joined the chat" "t1")).
  - exact chat_state_reachable.
  - vm_compute. reflexivity.
  - reflexivity.
  - vm_compute. repeat constructor.
Defined.

(** ** create-team *)

Section Create.

Lemma forallb_draws draws :
  forallb (λ d, d <? 32)%nat draws = true → Forall (λ d, d < 32)%nat draws.
Proof.
  rewrite forallb_forall, Forall_forall. intros H d Hd.
  apply Nat.ltb_lt, H. by apply list_elem_of_In.
Qed.

Lemma makeTeamCode_app ch rest :
  makeTeamCode (length ch) (ch ++ rest) = Some (code_of ch, rest).
Proof. induction ch as [|d ch IH]; simpl; [done|]. by rewrite IH. Qed.

(** The loop passes over the draws of codes that are taken and stops at
    the first code that is free. *)
Lemma regenerate_finds t pre ch rest : ∀ fuel code0,
  Forall (λ c, length c = 6%nat ∧ is_Some (t !! code_of c)) pre →
  length ch = 6%nat → t !! code_of ch = None →
  is_Some (t !! code0) → (length pre < fuel)%nat →
  regenerate fuel t code0 (concat pre ++ ch ++ rest) = Some (code_of ch).
Proof.
  induction pre as [|p pre IH]; intros fuel code0 Hpre Hch Hfree [tm H0] Hfuel;
    (destruct fuel as [|fuel]; [simpl in Hfuel; lia|]); cbn [regenerate]; rewrite H0.
  - cbn [concat app]. rewrite <- Hch at 1. rewrite makeTeamCode_app.
    destruct fuel; cbn [regenerate]; by rewrite Hfree.
  - apply Forall_cons in Hpre as [[Hp Hin] Hpre].
    cbn [concat]. rewrite <- app_assoc, <- Hp at 1. rewrite makeTeamCode_app.
    apply IH; try done. simpl in Hfuel. lia.
Qed.

(** Termination of a creation without custom code: when some six draws
    make a code that is free, after draws that only make codes that are
    taken, the handler answers with that code. *)
Lemma create_team_returns t pre ch rest iso :
  Forall (λ c, length c = 6%nat ∧ is_Some (t !! code_of c)) pre →
  length ch = 6%nat → t !! code_of ch = None →
  create_team t None (concat pre ++ ch ++ rest) iso
  = Some (<[code_of ch := mkTeam iso]> t, Created (code_of ch)).
Proof.
  intros Hpre Hch Hfree. unfold create_team. cbn [truthy].
  destruct pre as [|p pre].
  - cbn [concat app]. rewrite <- Hch at 1. rewrite makeTeamCode_app.
    destruct (length (ch ++ rest)); cbn [regenerate]; by rewrite Hfree.
  - apply Forall_cons in Hpre as [[Hp Hin] Hpre].
    cbn [concat]. rewrite <- app_assoc, <- Hp at 1. rewrite makeTeamCode_app.
    rewrite (regenerate_finds t pre ch rest); try done.
    assert (length pre ≤ length (concat pre))%nat.
    { clear -Hpre. induction Hpre as [|c l [Hc _] _ IH]; simpl; [done|].
      rewrite length_app. lia. }
    rewrite !length_app, Hp. lia.
Qed.

(** A creation answers with the custom code, trimmed and uppercased, when
    that is not empty, and with a code of six characters of the alphabet
    otherwise; either way the code was free and is the one entry added. *)
Lemma create_team_spec t cc draws iso t' code :
  Forall (λ d, d < 32)%nat draws →
  create_team t cc draws iso = Some (t', Created code) →
  (normalize_custom cc = Some code ∧ code ≠ EmptyString ∨
   truthy (normalize_custom cc) = false ∧ from_alphabet 6 code) ∧
  t !! code = None ∧ t' = <[code := mkTeam iso]> t.
Proof.
  intros Hd. unfold create_team.
  destruct (truthy (normalize_custom cc)) eqn:Hcc.
  - apply truthy_true in Hcc as (c & -> & Hc). cbn [to_string].
    destruct (t !! c) eqn:Ht; [done|]. intros [= <- <-]. auto.
  - destruct (makeTeamCode 6 draws) as [[c0 rest]|] eqn:H0; [|done].
    destruct (regenerate _ t c0 rest) as [c|] eqn:Hc; [|done].
    intros [= <- <-].
    apply (regenerate_spec
             (λ c r, from_alphabet 6 c ∧ Forall (λ d, d < 32)%nat r)) in Hc
      as [Hfree (r & Hal & _)]; [auto|..].
    + by eapply makeTeamCode_from_alphabet.
    + intros ds c' r' [c1 [_ Hds]] Hmk. by eapply makeTeamCode_from_alphabet.
Qed.

End Create.

(** C7. A code that create-team generates (no customCode in the request,
    or one that is empty once trimmed) has exactly six characters, each of
    them a character of the alphabet ABCDEFGHJKLMNPQRSTUVWXYZ23456789; it
    is not a key of the registry before the creation and it is one after.
    [create_team_returns] shows that the creation does answer as soon as
    some draws make a free code. *)
Theorem create_team_generated t cc draws iso t' code :
  truthy (normalize_custom cc) = false →
  Forall (λ d, d < 32)%nat draws →
  create_team t cc draws iso = Some (t', Created code) →
  String.length code = 6%nat ∧
  (∀ a, a ∈ list_ascii_of_string code → a ∈ list_ascii_of_string chars) ∧
  t !! code = None ∧ is_Some (t' !! code).
Proof.
  intros Hcc Hd Hc.
  apply create_team_spec in Hc as (Hkind & Hfree & ->); [|done].
  destruct Hkind as [[Hn Hne]|[_ [Hlen Hal]]].
  - rewrite Hn in Hcc. apply truthy_false in Hcc as [[=]|[= ->]]. done.
  - repeat split; try done. rewrite lookup_insert_eq. eauto.
Qed.

Lemma create_team_generated_witness :
  let t : gmap string Team := {["ABCDEF" := mkTeam "t0"]} in
  let draws := [0; 1; 2; 3; 4; 5; 31; 30; 29; 28; 27; 26]%nat in
  create_team t None draws "t1" = Some (<["987654" := mkTeam "t1"]> t, Created "987654") ∧
  String.length "987654" = 6%nat ∧ t !! "987654" = None.
Proof.
  intros t draws.
  assert (H : create_team t None draws "t1"
              = Some (<["987654" := mkTeam "t1"]> t, Created "987654")).
  { vm_compute. reflexivity. }
  split; [exact H|].
  destruct (create_team_generated t None draws "t1" _ "987654" eq_refl
              ltac:(repeat constructor; lia) H) as (H1 & _ & H3 & _).
  by split.
Defined.

Section Registry.

Lemma normalize_custom_Some cc code :
  normalize_custom cc = Some code → code ≠ EmptyString →
  ∃ c, cc = Some c ∧ c ≠ EmptyString ∧ code = toUpperCase (trim c).
Proof.
  unfold normalize_custom. destruct (truthy cc) eqn:Hcc.
  - apply truthy_true in Hcc as (c & -> & Hc). cbn [to_string].
    intros [= <-] _. eauto.
  - intros -> Hne. apply truthy_false in Hcc as [[=]|[= ->]]. done.
Qed.

(** Only a creation changes the registry. *)
Lemma handle_teams s e o :
  handle s e = Some o →
  teams (st o) = teams s ∨
  ∃ cc draws iso code, e = CreateTeam cc draws iso ∧
    create_team (teams s) cc draws iso = Some (teams (st o), Created code).
Proof.
  destruct e; simpl.
  - destruct (sockets s !! sid); [done|]. intros [= <-]. by left.
  - destruct (sockets s !! sid); [|done]. intros [= <-]. left.
    unfold join_room. destruct (_ || _); [done|]. by destruct (teams s !! _).
  - destruct (sockets s !! sid) as [sk|]; [|done]. intros [= <-]. left.
    unfold send_message. destruct (_ || _); [done|]. by destruct (is_empty _).
  - destruct (sockets s !! sid) as [sk|]; [|done]. intros [= <-]. left.
    unfold delete_message. destruct (negb _); [done|]. destruct (negb _); [done|].
    by destruct (findIndex _ _).
  - destruct (sockets s !! sid) as [sk|]; [|done]. intros [= <-]. left.
    unfold disconnect. destruct (negb _); [done|]. by destruct (0 <? _).
  - destruct (create_team _ _ _ _) as [[t' r]|] eqn:Hc; [|done]. intros [= <-].
    simpl. destruct r as [code|]; [right; by eauto 10|].
    left. by apply create_team_inv in Hc as [[_ ->]|(? & [=] & _)].
Qed.

End Registry.

(** ** Normal forms of codes *)

Section Normalize.

Lemma is_space_upper a : is_space (upper_char a) = is_space a.
Proof. by destruct a as [[] [] [] [] [] [] [] []]. Qed.

Lemma upper_char_idemp a : upper_char (upper_char a) = upper_char a.
Proof. by destruct a as [[] [] [] [] [] [] [] []]. Qed.

Lemma is_empty_upper s : is_empty (toUpperCase s) = is_empty s.
Proof. by destruct s. Qed.

Lemma toUpperCase_idemp s : toUpperCase (toUpperCase s) = toUpperCase s.
Proof. induction s as [|a s IH]; simpl; [done|]. by rewrite upper_char_idemp, IH. Qed.

Lemma toUpperCase_length s : String.length (toUpperCase s) = String.length s.
Proof. induction s as [|a s IH]; simpl; [done|]. by rewrite IH. Qed.

Lemma trimStart_upper s : trimStart (toUpperCase s) = toUpperCase (trimStart s).
Proof.
  induction s as [|a s IH]; simpl; [done|].
  rewrite is_space_upper. by destruct (is_space a).
Qed.

Lemma trimEnd_upper s : trimEnd (toUpperCase s) = toUpperCase (trimEnd s).
Proof.
  induction s as [|a s IH]; simpl; [done|].
  rewrite is_space_upper, IH, is_empty_upper.
  by destruct (is_space a && is_empty (trimEnd s)).
Qed.

Lemma trim_upper s : trim (toUpperCase s) = toUpperCase (trim s).
Proof. unfold trim. by rewrite trimStart_upper, trimEnd_upper. Qed.

Lemma trimEnd_idemp s : trimEnd (trimEnd s) = trimEnd s.
Proof.
  induction s as [|a s IH]; simpl; [done|].
  destruct (is_space a && is_empty (trimEnd s)) eqn:H; simpl; [done|].
  by rewrite IH, H.
Qed.

(** What [trimStart] leaves does not start with white space. *)
Lemma trimStart_head s a r : trimStart s = String a r → is_space a = false.
Proof.
  induction s as [|b s IH]; simpl; [done|].
  destruct (is_space b) eqn:Hb; [done|]. by intros [= <- <-].
Qed.

Lemma trimStart_trimEnd s :
  (∀ a r, s = String a r → is_space a = false) →
  trimStart (trimEnd s) = trimEnd s.
Proof.
  destruct s as [|a r]; simpl; [done|]. intros H.
  rewrite (H a r eq_refl). simpl. by rewrite (H a r eq_refl).
Qed.

Lemma trim_idemp s : trim (trim s) = trim s.
Proof.
  unfold trim. rewrite trimStart_trimEnd; [apply trimEnd_idemp|].
  intros a r. apply trimStart_head.
Qed.

Lemma normalize_idemp c : normalize (normalize c) = normalize c.
Proof. unfold normalize. by rewrite trim_upper, toUpperCase_idemp, trim_idemp. Qed.

(** A string without white space is its own trim. *)
Lemma trim_no_space s :
  (∀ a, a ∈ list_ascii_of_string s → is_space a = false) → trim s = s.
Proof.
  intros H. unfold trim.
  assert (trimStart s = s) as ->.
  { destruct s as [|a r]; simpl; [done|]. rewrite (H a); [done|]. by left. }
  induction s as [|a r IH]; simpl; [done|].
  rewrite (H a) by (by left). simpl. rewrite IH; [done|].
  intros b Hb. apply H. by right.
Qed.

Lemma toUpperCase_fixed s :
  (∀ a, a ∈ list_ascii_of_string s → upper_char a = a) → toUpperCase s = s.
Proof.
  induction s as [|a r IH]; simpl; [done|]. intros H.
  rewrite (H a) by (by left). rewrite IH; [done|]. intros b Hb. apply H. by right.
Qed.

Lemma alphabet_plain a : a ∈ alphabet → is_space a = false ∧ upper_char a = a.
Proof.
  unfold alphabet. cbn. intros H.
  repeat (apply elem_of_cons in H as [->|H]; [by vm_compute|]).
  by apply not_elem_of_nil in H.
Qed.

Lemma from_alphabet_normal n code : from_alphabet n code → normalize code = code.
Proof.
  intros [_ H]. unfold normalize. rewrite trim_no_space.
  - apply toUpperCase_fixed. intros a Ha. by apply alphabet_plain, H.
  - intros a Ha. by apply alphabet_plain, H.
Qed.

End Normalize.

(** C8, as stated, fails: a custom code is stored whatever its length and
    its characters; here a code of two characters enters the registry. *)
Lemma custom_code_unchecked :
  run initial short_code_run = Some short_code_state ∧
  teams short_code_state !! "AB" = Some (mkTeam "t0") ∧
  ¬ from_alphabet 6 "AB".
Proof.
  split; [vm_compute; reflexivity|]. split; [vm_compute; reflexivity|].
  by intros [Hlen _].
Qed.

(** C8, amended. Every code in the registry is non-empty and is left as
    it is by trimming and uppercasing, and codes are unique: the registry
    is keyed by them and no event replaces or removes an entry that is
    there. A code enters the registry through a creation only. When the
    request carries no customCode, or one that is blank, the code is a
    generated one: six characters of the alphabet
    ABCDEFGHJKLMNPQRSTUVWXYZ23456789. When it carries one, the code is
    that customCode trimmed and uppercased, stored without any check of
    its length or of its characters. *)
Theorem registry_codes s :
  reachable s →
  (∀ code, is_Some (teams s !! code) →
     code ≠ EmptyString ∧ normalize code = code) ∧
  (∀ e o, event_ok e = true → handle s e = Some o →
     (∀ code tm, teams s !! code = Some tm → teams (st o) !! code = Some tm) ∧
     (∀ code, teams s !! code = None → is_Some (teams (st o) !! code) →
        ∃ cc draws iso, e = CreateTeam cc draws iso ∧
          (truthy (normalize_custom cc) = false ∧ from_alphabet 6 code ∨
           ∃ c, cc = Some c ∧ c ≠ EmptyString ∧
                code = normalize c ∧ code ≠ EmptyString))).
Proof.
  intros Hr. split.
  - induction Hr as [|s e o Hr IH He Hh]; intros code Hin.
    + simpl in Hin. rewrite lookup_empty in Hin. by destruct Hin.
    + destruct (handle_teams s e o Hh) as [Ht|(cc & draws & iso & c & -> & Hc)].
      { rewrite Ht in Hin. by apply IH. }
      apply create_team_spec in Hc as (Hkind & Hfree & Ht);
        [|by apply forallb_draws].
      rewrite Ht, lookup_insert in Hin. case_decide as Hcode; [subst c|by apply IH].
      destruct Hkind as [[Hn Hne]|[_ Hal]].
      * split; [done|].
        destruct (normalize_custom_Some _ _ Hn Hne) as (c & _ & _ & ->).
        apply normalize_idemp.
      * split; [|by eapply from_alphabet_normal]. destruct Hal as [Hlen _].
        by intros ->.
  - intros e o He Hh. split.
    + intros code tm Hin.
      destruct (handle_teams s e o Hh) as [Ht|(cc & draws & iso & c & -> & Hc)].
      { by rewrite Ht. }
      apply create_team_inv in Hc as [[[=] _]|(c' & [= <-] & _ & Hfree & ->)].
      rewrite lookup_insert_ne; [done|]. intros <-. by rewrite Hfree in Hin.
    + intros code Hnone Hin.
      destruct (handle_teams s e o Hh) as [Ht|(cc & draws & iso & c & -> & Hc)].
      { rewrite Ht, Hnone in Hin. by destruct Hin. }
      exists cc, draws, iso. split; [done|].
      apply create_team_spec in Hc as (Hkind & Hfree & Ht);
        [|by apply forallb_draws].
      rewrite Ht, lookup_insert in Hin. case_decide as Hcode.
      2:{ rewrite Hnone in Hin. by destruct Hin. }
      subst c. destruct Hkind as [[Hn Hne]|[Hf Hal]]; [right|by left].
      destruct (normalize_custom_Some _ _ Hn Hne) as (c & -> & Hc & ->). eauto.
Qed.

Lemma registry_codes_witness :
  let e := CreateTeam None [0; 1; 2; 3; 4; 5]%nat "t9" in
  let o := default (mkOutcome initial [] None) (handle chat_state e) in
  ("TEST01" ≠ EmptyString ∧ normalize "TEST01" = "TEST01") ∧
  ∃ cc draws iso, e = CreateTeam cc draws iso ∧
    (truthy (normalize_custom cc) = false ∧ from_alphabet 6 "ABCDEF" ∨
     ∃ c, cc = Some c ∧ c ≠ EmptyString ∧
          "ABCDEF" = normalize c ∧ "ABCDEF" ≠ EmptyString).
Proof.
  intros e o.
  destruct (registry_codes chat_state chat_state_reachable) as [H1 H2].
  split.
  - apply H1. vm_compute. eauto.
  - destruct (H2 e o) as [_ H3]; [reflexivity|vm_compute; reflexivity|].
    apply H3; vm_compute; eauto.
Defined.

(** ** Message ids *)

Section Logs.

(** What one event does to one room's log: nothing, or it appends one
    entry under the id made for it, or it takes one entry out, or it
    empties the log. *)
Lemma handle_log s e o c :
  handle s e = Some o →
  room_log (st o) c = room_log s c ∨
  (∃ m, new_id e = Some (id m) ∧ room_log (st o) c = room_log s c ++ [m]) ∨
  (∃ l1 x l2, room_log s c = l1 ++ x :: l2 ∧ room_log (st o) c = l1 ++ l2) ∨
  room_log (st o) c = [].
Proof.
  destruct e; simpl.
  - destruct (sockets s !! sid); [done|]. intros [= <-]. by left.
  - destruct (sockets s !! sid); [|done]. intros [= <-].
    unfold join_room. destruct (_ || _); [by left|].
    destruct (teams s !! _); [|by left]. simpl.
    rewrite room_log_insert. case_decide as Hc; [subst c|by left].
    right; left. eexists. split; [|reflexivity]. reflexivity.
  - destruct (sockets s !! sid) as [sk|]; [|done]. intros [= <-].
    unfold send_message. destruct (_ || _); [by left|].
    destruct (is_empty _); [by left|]. simpl.
    rewrite room_log_insert. case_decide as Hc; [subst c|by left].
    right; left. eexists. split; [|reflexivity]. reflexivity.
  - destruct (sockets s !! sid) as [sk|]; [|done]. intros [= <-].
    unfold delete_message. destruct (negb _); [by left|].
    destruct (negb _); [by left|].
    destruct (findIndex _ _) as [idx|] eqn:Hidx; simpl;
      rewrite room_log_insert; (case_decide as Hc; [subst c|by left]).
    + apply findIndex_Some in Hidx as (l1 & x & l2 & Hlog & _ & _ & _ & ->).
      right; right; left. by exists l1, x, l2.
    + by left.
  - destruct (sockets s !! sid) as [sk|]; [|done]. intros [= <-].
    unfold disconnect. destruct (negb _); [by left|].
    destruct (0 <? _); simpl.
    + rewrite room_log_insert. case_decide as Hc; [subst c|by left].
      right; left. eexists. split; [|reflexivity]. reflexivity.
    + rewrite room_log_delete. case_decide as Hc; [|by left].
      by right; right; right.
  - destruct (create_team _ _ _ _) as [[t' r]|]; [|done]. intros [= <-]. by left.
Qed.

Lemma NoDup_remove_middle {A} (l1 l2 : list A) x :
  NoDup (l1 ++ x :: l2) → NoDup (l1 ++ l2).
Proof.
  rewrite !NoDup_app, NoDup_cons. intros (H1 & H12 & _ & H2).
  repeat split; [done| |done]. intros y Hy Hy2. apply (H12 y Hy). by right.
Qed.

Lemma ids_distinct_step s e o c :
  handle s e = Some o →
  NoDup (ids s c) →
  (∀ i, new_id e = Some i → i ∉ ids s c) →
  NoDup (ids (st o) c).
Proof.
  intros Hh Hnd Hfresh. unfold ids in *.
  destruct (handle_log s e o c Hh)
    as [->|[(m & Hid & ->)|[(l1 & x & l2 & Hs & ->)| ->]]].
  - done.
  - rewrite fmap_app. apply NoDup_app. repeat split; [done| |apply NoDup_singleton].
    intros i Hi ->%list_elem_of_singleton. by apply (Hfresh (id m)).
  - rewrite Hs, fmap_app, fmap_cons in Hnd. rewrite fmap_app.
    by eapply NoDup_remove_middle.
  - apply NoDup_nil_2.
Qed.

Lemma ids_initial c : ids initial c = [].
Proof. unfold ids, room_log. simpl. by rewrite lookup_empty. Qed.

(** The ids are distinct in every state of a run whose events all make
    ids that are new to the logs. *)
Lemma reachable_fresh_ids_distinct s c : reachable_fresh s → NoDup (ids s c).
Proof.
  induction 1 as [|s e o _ IH _ Hh Hfresh].
  - rewrite ids_initial. apply NoDup_nil_2.
  - eapply ids_distinct_step; eauto.
Qed.

(** *** Ids and the clock *)

Lemma string_of_uint_digits d : all_digits (NilEmpty.string_of_uint d) = true.
Proof. induction d; simpl; auto. Qed.

Lemma dec_digits n : all_digits (dec n) = true.
Proof.
  unfold dec, NilZero.string_of_uint.
  destruct (N.to_uint n) eqn:Hd; try (rewrite <- Hd; apply string_of_uint_digits).
  reflexivity.
Qed.

Lemma to_uint_nonnil n : N.to_uint n ≠ Decimal.Nil.
Proof. destruct n; simpl; [done|]. apply DecimalPos.Unsigned.to_uint_nonnil. Qed.

Lemma dec_inj n m : dec n = dec m → n = m.
Proof.
  unfold dec. intros H. apply DecimalN.Unsigned.to_uint_inj.
  apply (f_equal NilZero.uint_of_string) in H.
  rewrite !NilZero.usu in H by apply to_uint_nonnil. congruence.
Qed.

(** Two texts of digits followed by a dash: the dash is at the same place
    in both. *)
Lemma split_at_dash a1 : ∀ a2 b1 b2,
  all_digits a1 = true → all_digits a2 = true →
  a1 +:+ String "-" b1 = a2 +:+ String "-" b2 → a1 = a2 ∧ b1 = b2.
Proof.
  induction a1 as [|x a1 IH]; intros [|y a2] b1 b2 H1 H2 H; cbn in *.
  - by injection H as ->.
  - injection H as <- _. done.
  - injection H as -> _. done.
  - injection H as -> H. apply andb_prop in H1 as [_ H1], H2 as [_ H2].
    destruct (IH a2 b1 b2 H1 H2 H) as [-> ->]. done.
Qed.

Lemma sys_id_inj now rnd now' rnd' :
  sys_id now rnd = sys_id now' rnd' → now = now' ∧ rnd = rnd'.
Proof.
  unfold sys_id. intros H. cbn in H. injection H as H.
  apply split_at_dash in H as [H1 H2]; try apply dec_digits.
  split; by apply dec_inj.
Qed.

Lemma msg_id_inj now rnd now' rnd' :
  msg_id now rnd = msg_id now' rnd' → now = now' ∧ rnd = rnd'.
Proof.
  unfold msg_id. intros H. cbn in H. injection H as H.
  apply split_at_dash in H as [H1 H2]; try apply dec_digits.
  split; by apply dec_inj.
Qed.

Lemma sys_id_msg_id now rnd now' rnd' : sys_id now rnd ≠ msg_id now' rnd'.
Proof. unfold sys_id, msg_id. cbn. discriminate. Qed.

Lemma new_id_now e i :
  new_id e = Some i →
  ∃ now rnd, event_now e = Some now ∧ (i = sys_id now rnd ∨ i = msg_id now rnd).
Proof. destruct e; simpl; intros [= <-]; eauto. Qed.

Lemma stamped_fresh t s e i c :
  stamped t s → (∀ now, event_now e = Some now → (t < now)%N) →
  new_id e = Some i → i ∉ ids s c.
Proof.
  intros Hst Hclock (now & rnd & Hnow & Hi)%new_id_now Hin.
  specialize (Hclock now Hnow).
  destruct (Hst c i Hin) as (t' & r & Hle & Hi').
  destruct Hi as [->| ->], Hi' as [Hi'|Hi'].
  - apply sys_id_inj in Hi' as [-> _]. lia.
  - by apply sys_id_msg_id in Hi'.
  - symmetry in Hi'. by apply sys_id_msg_id in Hi'.
  - apply msg_id_inj in Hi' as [-> _]. lia.
Qed.

Lemma stamped_step t s e o :
  stamped t s → (∀ now, event_now e = Some now → (t < now)%N) →
  handle s e = Some o → stamped (default t (event_now e)) (st o).
Proof.
  intros Hst Hclock Hh c i Hin.
  assert (Hmono : ∀ t', (t' ≤ t)%N → (t' ≤ default t (event_now e))%N).
  { intros t' Hle. destruct (event_now e) as [now|]; simpl; [|done].
    specialize (Hclock now eq_refl). lia. }
  assert (Hold : i ∈ ids s c →
    ∃ t' r, (t' ≤ default t (event_now e))%N ∧ (i = sys_id t' r ∨ i = msg_id t' r)).
  { intros (t' & r & Hle & Hi)%Hst. exists t', r. auto. }
  unfold ids in *.
  destruct (handle_log s e o c Hh)
    as [Hl|[(m & Hid & Hl)|[(l1 & x & l2 & Hs & Hl)|Hl]]]; rewrite Hl in Hin.
  - auto.
  - rewrite fmap_app in Hin. apply elem_of_app in Hin as [Hin|Hin]; [auto|].
    apply list_elem_of_singleton in Hin as ->.
    apply new_id_now in Hid as (now & rnd & Hnow & Hi).
    exists now, rnd. rewrite Hnow. simpl. split; [lia|done].
  - apply Hold. rewrite Hs, fmap_app, fmap_cons. rewrite fmap_app in Hin.
    apply elem_of_app in Hin as [Hin|Hin]; apply elem_of_app; [by left|].
    right. by right.
  - by apply not_elem_of_nil in Hin.
Qed.

(** When no two events read the clock in the same millisecond, every id
    is new when it is made, and the ids of every log are distinct. *)
Lemma reachable_clock_ids_distinct t s :
  reachable_clock t s → stamped t s ∧ ∀ c, NoDup (ids s c).
Proof.
  induction 1 as [|t s e o _ [IHst IHnd] He Hh Hclock].
  - split.
    + intros c i Hin. rewrite ids_initial in Hin. by apply not_elem_of_nil in Hin.
    + intros c. rewrite ids_initial. apply NoDup_nil_2.
  - split; [by eapply stamped_step|].
    intros c. apply (ids_distinct_step s e o c Hh (IHnd c)).
    intros i Hi. by eapply stamped_fresh.
Qed.

End Logs.

(** C9, as stated, fails: two notices made in the same millisecond with
    the same random suffix have the same id, and both are in the log. *)
Lemma same_tick_same_id :
  run initial same_tick_run = Some same_tick_state ∧
  ids same_tick_state "TEST01" = ["sys-10-1"; "sys-10-1"] ∧
  ¬ NoDup (ids same_tick_state "TEST01").
Proof.
  split; [vm_compute; reflexivity|].
  assert (H : ids same_tick_state "TEST01" = ["sys-10-1"; "sys-10-1"]).
  { vm_compute. reflexivity. }
  split; [exact H|]. rewrite H. intros [Hn _]%NoDup_cons. apply Hn. by left.
Qed.

(** C9, amended. The ids of a room's log stay pairwise distinct under an
    event as long as the id that the event makes (prefix, clock in
    milliseconds, random suffix) is not already in that log; the handlers
    do not check this. Deleting an entry and emptying the log keep the ids
    distinct without any condition. *)
Theorem fresh_id_keeps_ids_distinct s e o c :
  handle s e = Some o →
  NoDup (ids s c) →
  (∀ i, new_id e = Some i → i ∉ ids s c) →
  NoDup (ids (st o) c).
Proof. apply ids_distinct_step. Qed.

Lemma fresh_id_keeps_ids_distinct_witness :
  let e := SendMessage 2 (Some "yo") 13 5 "t4" in
  let o := default (mkOutcome initial [] None) (handle chat_state e) in
  NoDup (ids (st o) "TEST01").
Proof.
  intros e o. apply (fresh_id_keeps_ids_distinct chat_state e o "TEST01").
  - vm_compute. reflexivity.
  - apply (bool_decide_unpack _). vm_compute. exact I.
  - intros i [= <-]. apply (bool_decide_unpack _). vm_compute. exact I.
Defined.

(** ** The session's teamCode *)

(** C2, as stated, fails: the join handler does not look at the socket's
    teamCode, so a second join on the same connection is acknowledged
    with ok and moves the teamCode to the code joined last. *)
Lemma second_join_changes_teamCode :
  let o := join_room rejoin_state 1 (mkSocket (Some "TEAM01") (Some "Alice") {["TEAM01"]})
             (Some "TEAM02") (Some "Alice") 11 2 "t2" in
  run initial rejoin_run = Some rejoin_state ∧
  teamCode <$> sockets rejoin_state !! 1%nat = Some (Some "TEAM01") ∧
  handle rejoin_state (JoinRoom 1 (Some "TEAM02") (Some "Alice") 11 2 "t2") = Some o ∧
  ack o = Some AckOk ∧
  teamCode <$> sockets (st o) !! 1%nat = Some (Some "TEAM02").
Proof. repeat split; vm_compute; reflexivity. Qed.

(** C2, amended. Once a socket's teamCode is set, no event unsets it, and
    the only event that changes it is a later join-room of the same
    connection that is acknowledged with ok, which sets it to the code
    joined then: the handler accepts a join from a socket that has
    joined. The socket is gone only after its own disconnect. *)
Theorem teamCode_changes_only_by_join s e o sid sk c :
  handle s e = Some o → sockets s !! sid = Some sk → teamCode sk = Some c →
  (sockets (st o) !! sid = None → ∃ now rnd iso, e = Disconnect sid now rnd iso) ∧
  (∀ sk', sockets (st o) !! sid = Some sk' →
     teamCode sk' = Some c ∨
     ∃ tc nm now rnd iso,
       e = JoinRoom sid tc nm now rnd iso ∧ ack o = Some AckOk ∧
       teamCode sk' = Some (toUpperCase (trim (to_string tc)))).
Proof.
  intros Hh Hsk Hc. destruct e as [sid0|sid0 tc nm now rnd iso|sid0 txt now rnd iso
                                   |sid0 i|sid0 now rnd iso|cc draws iso];
    simpl in Hh.
  - destruct (sockets s !! sid0) eqn:H0; [done|]. injection Hh as <-. simpl.
    assert (sid0 ≠ sid) by congruence.
    rewrite lookup_insert_ne by done. rewrite Hsk. split; [done|].
    intros sk' [= <-]. by left.
  - destruct (sockets s !! sid0) as [sk0|] eqn:H0; [|done]. injection Hh as <-.
    unfold join_room. destruct (_ || _).
    { simpl. rewrite Hsk. split; [done|]. intros sk' [= <-]. by left. }
    destruct (teams s !! _).
    2:{ simpl. rewrite Hsk. split; [done|]. intros sk' [= <-]. by left. }
    simpl. rewrite lookup_insert. case_decide as Hs.
    + subst sid0. split; [done|]. intros sk' [= <-]. right. by eauto 10.
    + rewrite Hsk. split; [done|]. intros sk' [= <-]. by left.
  - destruct (sockets s !! sid0) as [sk0|] eqn:H0; [|done]. injection Hh as <-.
    unfold send_message. destruct (_ || _); [|destruct (is_empty _)]; simpl;
      rewrite Hsk; (split; [done|]); intros sk' [= <-]; by left.
  - destruct (sockets s !! sid0) as [sk0|] eqn:H0; [|done]. injection Hh as <-.
    unfold delete_message.
    destruct (negb _); [|destruct (negb _); [|destruct (findIndex _ _)]]; simpl;
      rewrite Hsk; (split; [done|]); intros sk' [= <-]; by left.
  - destruct (sockets s !! sid0) as [sk0|] eqn:H0; [|done]. injection Hh as <-.
    assert (Hdel : sockets (st (disconnect s sid0 sk0 now rnd iso))
                   = delete sid0 (sockets s)).
    { unfold disconnect. destruct (negb _); [done|]. by destruct (0 <? _). }
    rewrite Hdel, lookup_delete. case_decide as Hs.
    + subst sid0. split; [by eauto|done].
    + rewrite Hsk. split; [done|]. intros sk' [= <-]. by left.
  - destruct (create_team _ _ _ _) as [[t' r]|]; [|done]. injection Hh as <-.
    simpl. rewrite Hsk. split; [done|]. intros sk' [= <-]. by left.
Qed.

Lemma teamCode_changes_only_by_join_witness :
  let e := SendMessage 1 (Some "yo") 13 5 "t4" in
  let o := default (mkOutcome initial [] None) (handle chat_state e) in
  (sockets (st o) !! 2%nat = None → ∃ now rnd iso, e = Disconnect 2 now rnd iso) ∧
  (∀ sk', sockets (st o) !! 2%nat = Some sk' →
     teamCode sk' = Some "TEST01" ∨
     ∃ tc nm now rnd iso,
       e = JoinRoom 2 tc nm now rnd iso ∧ ack o = Some AckOk ∧
       teamCode sk' = Some (toUpperCase (trim (to_string tc)))).
Proof.
  intros e o.
  apply (teamCode_changes_only_by_join chat_state e o 2 bob "TEST01").
  - vm_compute. reflexivity.
  - vm_compute. reflexivity.
  - reflexivity.
Defined.

(** ** memberCount *)

Section Counting.

Lemma run_once_reachable es : ∀ s s',
  reachable_once s → run_once s es = Some s' → reachable_once s'.
Proof.
  induction es as [|e es IH]; intros s s' Hs Hr; simpl in Hr.
  - by inversion Hr; subst.
  - destruct (event_ok e) eqn:He; [|done].
    destruct (first_join s e) eqn:Hf; [|done].
    destruct (handle s e) as [o|] eqn:Ho; [|done]. simpl in Hr.
    eapply IH; [|exact Hr]. by eapply once_step.
Qed.

Lemma reachable_once_reachable s : reachable_once s → reachable s.
Proof. induction 1; [constructor|by eapply reach_step]. Qed.

Lemma num_or_0 v : num_or v 0 = default 0 v.
Proof. destruct v as [n|]; simpl; [|done]. destruct (n =? 0) eqn:H; lia. Qed.

Lemma count_insert (m : gmap nat Socket) sid sk c :
  size (filter (λ p : nat * Socket, teamCode p.2 = Some c) (<[sid := sk]> m)) =
  ((if decide (teamCode sk = Some c) then 1 else 0) +
   size (filter (λ p : nat * Socket, teamCode p.2 = Some c) (delete sid m)))%nat.
Proof.
  rewrite map_filter_insert. simpl. case_decide; [|done].
  rewrite <- insert_delete_eq, map_size_insert_None by apply lookup_delete_eq.
  by rewrite map_filter_delete.
Qed.

Lemma count_lookup (m : gmap nat Socket) sid sk c :
  m !! sid = Some sk →
  size (filter (λ p : nat * Socket, teamCode p.2 = Some c) m) =
  ((if decide (teamCode sk = Some c) then 1 else 0) +
   size (filter (λ p : nat * Socket, teamCode p.2 = Some c) (delete sid m)))%nat.
Proof.
  intros H. rewrite <- (insert_delete_id m sid sk H) at 1.
  by rewrite count_insert, delete_delete_eq.
Qed.

Lemma memberCount_nonneg s c : wf s → 0 ≤ memberCount s c.
Proof.
  intros Hwf. unfold memberCount.
  destruct (roomUserCounts s !! c) as [n|] eqn:Hn; simpl; [|done].
  by apply (wf_counts s Hwf c).
Qed.

Lemma counts_ok_join s sid sk tc nm now rnd iso :
  sockets s !! sid = Some sk → teamCode sk = None →
  counts_ok s → counts_ok (st (join_room s sid sk tc nm now rnd iso)).
Proof.
  intros Hsk Hnone Hok. unfold join_room.
  destruct (_ || _); [done|]. set (code := toUpperCase _).
  destruct (teams s !! code); [|done].
  intros c. unfold memberCount, attached. simpl.
  rewrite count_insert, default_lookup_insert, num_or_0. simpl.
  specialize (Hok c). unfold memberCount, attached in Hok.
  rewrite (count_lookup _ sid sk c Hsk), Hnone in Hok.
  rewrite decide_False in Hok by done.
  destruct (decide (code = c)) as [->|Hne].
  - rewrite decide_True by done. lia.
  - rewrite decide_False by congruence. lia.
Qed.

Lemma counts_ok_disconnect s sid sk now rnd iso :
  wf s → sockets s !! sid = Some sk →
  counts_ok s → counts_ok (st (disconnect s sid sk now rnd iso)).
Proof.
  intros Hwf Hsk Hok.
  assert (Hsub : ∀ c, Z.of_nat (attached s c) =
    (if decide (teamCode sk = Some c) then 1 else 0) +
    Z.of_nat (size (filter (λ p : nat * Socket, teamCode p.2 = Some c)
                      (delete sid (sockets s))))).
  { intros c. unfold attached. rewrite (count_lookup _ sid sk c Hsk).
    case_decide; lia. }
  unfold disconnect. destruct (teamCode sk) as [code|] eqn:Hc.
  2:{ simpl. intros c. pose proof (Hok c) as H1.
      rewrite Hsub, decide_False in H1 by done.
      unfold memberCount, attached in *. simpl. lia. }
  pose proof (wf_teamCode_truthy s sid sk code Hwf Hsk Hc) as Hcode.
  assert (truthy (Some code) = true) as -> by (apply truthy_true; eauto).
  cbn [to_string]. simpl negb. cbv iota. simpl roomUserCounts.
  set (n := Z.max 0 _).
  assert (Hn : n = memberCount s code - 1).
  { subst n. pose proof (Hok code) as H1. rewrite Hsub, decide_True in H1 by done.
    unfold memberCount in *.
    destruct (roomUserCounts s !! code) as [k|]; simpl in *; [|lia].
    destruct (k =? 0) eqn:Hk; lia. }
  assert (Hres : ∀ c,
    default 0 (<[code := n]> (roomUserCounts s) !! c) =
    Z.of_nat (size (filter (λ p : nat * Socket, teamCode p.2 = Some c)
                      (delete sid (sockets s))))).
  { intros c. rewrite default_lookup_insert. pose proof (Hok c) as H1.
    rewrite Hsub in H1. destruct (decide (code = c)) as [->|Hne].
    - rewrite decide_True in H1 by done. lia.
    - rewrite decide_False in H1 by congruence. unfold memberCount in H1. lia. }
  destruct (0 <? n); intros c; apply Hres.
Qed.

Lemma counts_ok_step s e o :
  wf s → first_join s e = true → handle s e = Some o →
  counts_ok s → counts_ok (st o).
Proof.
  intros Hwf Hf Hh Hok. destruct e; simpl in Hh, Hf.
  - destruct (sockets s !! sid) eqn:Hs; [done|]. injection Hh as <-.
    intros c. unfold memberCount, attached. simpl.
    rewrite count_insert, decide_False by done.
    rewrite delete_id by done. apply Hok.
  - destruct (sockets s !! sid) as [sk|] eqn:Hs; [|done]. injection Hh as <-.
    apply counts_ok_join; [done| |done]. by destruct (teamCode sk).
  - destruct (sockets s !! sid) as [sk|] eqn:Hs; [|done]. injection Hh as <-.
    unfold send_message. destruct (_ || _); [done|]. by destruct (is_empty _).
  - destruct (sockets s !! sid) as [sk|] eqn:Hs; [|done]. injection Hh as <-.
    unfold delete_message. destruct (negb _); [done|]. destruct (negb _); [done|].
    by destruct (findIndex _ _).
  - destruct (sockets s !! sid) as [sk|] eqn:Hs; [|done]. injection Hh as <-.
    by apply counts_ok_disconnect.
  - destruct (create_team _ _ _ _) as [[t' r]|]; [|done]. by injection Hh as <-.
Qed.

Lemma reachable_once_counts_ok s : reachable_once s → counts_ok s.
Proof.
  induction 1 as [|s e o Hr IH He Hf Hh].
  - intros c. unfold memberCount, attached. simpl.
    by rewrite lookup_empty, map_filter_empty, map_size_empty.
  - eapply counts_ok_step; eauto. by apply reachable_wf, reachable_once_reachable.
Qed.

End Counting.

(** C1, as stated, fails: a second join-room on the same connection is
    counted again, so the room's memberCount is 2 while one socket is
    attached. *)
Lemma memberCount_counts_joins :
  run initial join_twice_run = Some join_twice_state ∧
  memberCount join_twice_state "TEST01" = 2 ∧
  attached join_twice_state "TEST01" = 1%nat.
Proof. repeat split; vm_compute; reflexivity. Qed.

(** C1, amended. A room's memberCount is never negative in a reachable
    state, and it equals the number of connected sockets whose teamCode is
    the room's code in every state of a run in which no socket sends
    join-room after it has joined; every event other than such a repeated
    join (connection, join, send, delete, disconnect, team creation) keeps
    the counts equal to the numbers of attached sockets. *)
Theorem memberCount_attached s c :
  (reachable s → 0 ≤ memberCount s c) ∧
  (reachable_once s → memberCount s c = Z.of_nat (attached s c)) ∧
  (∀ e o, reachable s → first_join s e = true → handle s e = Some o →
     (∀ c', memberCount s c' = Z.of_nat (attached s c')) →
     memberCount (st o) c = Z.of_nat (attached (st o) c)).
Proof.
  repeat split.
  - intros Hr. by apply memberCount_nonneg, reachable_wf.
  - intros Hr. by apply reachable_once_counts_ok.
  - intros e o Hr Hf Hh Hok.
    by apply (counts_ok_step s e o (reachable_wf s Hr) Hf Hh Hok).
Qed.

Lemma chat_state_reachable_once : reachable_once chat_state.
Proof.
  apply (run_once_reachable chat_run initial); [constructor|].
  vm_compute. reflexivity.
Qed.

Lemma memberCount_attached_witness :
  let e := Disconnect 1 20 3 "t5" in
  let o := default (mkOutcome initial [] None) (handle chat_state e) in
  0 ≤ memberCount chat_state "TEST01" ∧
  memberCount chat_state "TEST01" = Z.of_nat (attached chat_state "TEST01") ∧
  memberCount (st o) "TEST01" = Z.of_nat (attached (st o) "TEST01").
Proof.
  intros e o.
  destruct (memberCount_attached chat_state "TEST01") as (H1 & H2 & H3).
  split; [apply H1, chat_state_reachable|].
  split; [apply H2, chat_state_reachable_once|].
  apply (H3 e o).
  - exact chat_state_reachable.
  - reflexivity.
  - vm_compute. reflexivity.
  - intros c'. apply (memberCount_attached chat_state c'), chat_state_reachable_once.
Defined.

(** ** The last member leaves *)

Section LastMember.

Lemma solo_state_reachable : reachable solo_state.
Proof.
  apply (run_reachable solo_run initial); [constructor|].
  vm_compute. reflexivity.
Qed.

(** The handler on a socket that has a teamCode. *)
Lemma disconnect_joined s sid sk code now rnd iso :
  teamCode sk = Some code → code ≠ EmptyString →
  let n := Z.max 0 (num_or (roomUserCounts s !! code) 1 - 1) in
  let leaveNotice :=
    mkMessage (sys_id now rnd) true None
      (or_else (userName sk) "A user" +:+ " left the chat") iso in
  disconnect s sid sk now rnd iso =
    if 0 <? n then
      let s' := mkState (teams s)
                  (<[code := room_log s code ++ [leaveNotice]]> (roomMessages s))
                  (<[code := n]> (roomUserCounts s)) (delete sid (sockets s)) in
      mkOutcome s' (io_to_emit s' code (MessageEv leaveNotice)) None
    else
      mkOutcome (mkState (teams s) (delete code (roomMessages s))
                   (<[code := n]> (roomUserCounts s)) (delete sid (sockets s)))
        [] None.
Proof.
  intros Hc Hcode. unfold disconnect. rewrite Hc.
  assert (truthy (Some code) = true) as -> by (apply truthy_true; eauto).
  done.
Qed.

Lemma disconnect_memberCount s sid sk code now rnd iso :
  teamCode sk = Some code → code ≠ EmptyString →
  memberCount (st (disconnect s sid sk now rnd iso)) code
  = Z.max 0 (num_or (roomUserCounts s !! code) 1 - 1).
Proof.
  intros Hc Hcode. rewrite (disconnect_joined s sid sk code) by done.
  destruct (0 <? _); unfold memberCount; simpl; by rewrite lookup_insert_eq.
Qed.

(** In a run without repeated joins the count comes down to zero when the
    socket that disconnects is the only one attached to the room. *)
Lemma last_attached_member s sid sk code now rnd iso :
  reachable_once s → sockets s !! sid = Some sk → teamCode sk = Some code →
  attached s code = 1%nat →
  memberCount (st (disconnect s sid sk now rnd iso)) code = 0.
Proof.
  intros Hr Hsk Hc Hone.
  pose proof (reachable_wf s (reachable_once_reachable s Hr)) as Hwf.
  pose proof (wf_teamCode_truthy s sid sk code Hwf Hsk Hc) as Hcode.
  rewrite disconnect_memberCount by done.
  pose proof (reachable_once_counts_ok s Hr code) as Hok. rewrite Hone in Hok.
  unfold memberCount in Hok.
  destruct (roomUserCounts s !! code) as [k|]; simpl in *; [|lia].
  destruct (k =? 0) eqn:Hk; lia.
Qed.

End LastMember.

(** C3, as stated, fails: after a repeated join the count is ahead of
    the members. Alice, who joined TEST01 twice, is the only member; when
    she disconnects no socket is left, yet the count goes from 2 to 1, the
    log is kept with a leave notice added, and the socket that joins next
    is sent a room-history of three entries. *)
Lemma last_member_log_kept :
  run initial join_twice_run = Some join_twice_state ∧
  sockets join_twice_state !! 1%nat = Some alice ∧
  attached join_twice_state "TEST01" = 1%nat ∧
  handle join_twice_state (Disconnect 1 20 3 "t5") = Some lone_leaver ∧
  sockets (st lone_leaver) = ∅ ∧
  memberCount (st lone_leaver) "TEST01" = 1 ∧
  ids (st lone_leaver) "TEST01" = ["sys-10-1"; "sys-11-2"; "sys-20-3"] ∧
  run (st lone_leaver) [Connection 2] = Some after_lone_leaver ∧
  handle after_lone_leaver (JoinRoom 2 (Some "TEST01") (Some "Bob") 21 4 "t6")
    = Some late_join ∧
  ack late_join = Some AckOk ∧
  head (deliveries late_join)
    = Some (2%nat, RoomHistory (room_log (st lone_leaver) "TEST01")) ∧
  room_log (st lone_leaver) "TEST01" ≠ [].
Proof.
  repeat (split; [vm_compute; reflexivity|]). vm_compute. discriminate.
Qed.

(** C3, amended. When a joined socket disconnects and the room's
    memberCount comes down to zero, which it does when the socket is the
    only one attached to the room in a run in which no socket has sent
    join-room after it had joined, the room's log is dropped from
    [roomMessages], nothing is broadcast and the registry is as before; a
    join-room to the same code that comes next is then acknowledged with
    ok, the joining socket is first sent a room-history with no entry and
    then the join notice of its own join, which is the only entry of the
    room's log, and the memberCount is 1. *)
Theorem last_member_disconnect s sid sk code now rnd iso :
  reachable s → sockets s !! sid = Some sk → teamCode sk = Some code →
  let o := disconnect s sid sk now rnd iso in
  (reachable_once s → attached s code = 1%nat → memberCount (st o) code = 0) ∧
  (memberCount (st o) code = 0 →
   roomMessages (st o) !! code = None ∧ room_log (st o) code = [] ∧
   teams (st o) = teams s ∧ deliveries o = [] ∧
   ∀ sid' sk' tc nm now' rnd' iso',
     sockets (st o) !! sid' = Some sk' →
     truthy tc = true → truthy nm = true →
     toUpperCase (trim (to_string tc)) = code →
     let o' := join_room (st o) sid' sk' tc nm now' rnd' iso' in
     ∃ notice rest,
       ack o' = Some AckOk ∧
       system notice = true ∧
       text notice = slice0 50 (trim (to_string nm)) +:+ " joined the chat" ∧
       deliveries o' = (sid', RoomHistory []) :: rest ∧
       (sid', MessageEv notice) ∈ rest ∧
       (∀ d, d ∈ rest → d.2 = MessageEv notice) ∧
       room_log (st o') code = [notice] ∧
       memberCount (st o') code = 1).
Proof.
  intros Hr Hsk Hc o. split.
  { intros Hro Hone. by apply last_attached_member. }
  intros Hzero. pose proof (reachable_wf s Hr) as Hwf.
  pose proof (wf_teamCode_truthy s sid sk code Hwf Hsk Hc) as Hcode.
  destruct (wf_socket s Hwf sid sk code Hsk Hc) as [[tm Htm] _].
  assert (Ho : o = mkOutcome
                     (mkState (teams s) (delete code (roomMessages s))
                        (<[code := 0]> (roomUserCounts s)) (delete sid (sockets s)))
                     [] None).
  { subst o. rewrite disconnect_memberCount in Hzero by done.
    rewrite (disconnect_joined s sid sk code) by done. by rewrite Hzero. }
  rewrite Ho. clear Ho Hzero o. simpl.
  split; [apply lookup_delete_eq|].
  split; [rewrite room_log_delete; by rewrite decide_True|].
  split; [done|]. split; [done|].
  intros sid' sk' tc nm now' rnd' iso' Hsk' Htc Hnm Hnorm.
  unfold join_room. rewrite Htc, Hnm, Hnorm. simpl negb. simpl orb. cbv iota.
  simpl teams. rewrite Htm. simpl roomMessages. simpl roomUserCounts.
  rewrite lookup_delete_eq. simpl default. simpl app.
  exists (mkMessage (sys_id now' rnd') true None
            (slice0 50 (trim (to_string nm)) +:+ " joined the chat") iso').
  eexists. split; [reflexivity|]. split; [reflexivity|].
  split; [reflexivity|]. split; [reflexivity|].
  split; [|split; [|split]].
  - apply io_to_emit_spec. split; [done|]. simpl.
    apply room_members_spec. simpl. eexists. split; [apply lookup_insert_eq|].
    simpl. apply elem_of_union_l. by apply elem_of_singleton.
  - by intros d [? _]%io_to_emit_spec.
  - unfold room_log. simpl. by rewrite lookup_insert_eq.
  - unfold memberCount. simpl. by rewrite !lookup_insert_eq.
Qed.

Lemma solo_state_reachable_once : reachable_once solo_state.
Proof.
  apply (run_once_reachable solo_run initial); [constructor|].
  vm_compute. reflexivity.
Qed.

Lemma last_member_disconnect_witness :
  let o := disconnect solo_state 1 alice 20 3 "t5" in
  let o' := join_room (st o) 2 (mkSocket None None ∅)
              (Some " test01 ") (Some "Bob") 21 4 "t6" in
  memberCount (st o) "TEST01" = 0 ∧
  room_log (st o) "TEST01" = [] ∧
  ∃ notice rest,
    ack o' = Some AckOk ∧ system notice = true ∧
    text notice = "Bob joined the chat" ∧
    deliveries o' = (2%nat, RoomHistory []) :: rest ∧
    (2%nat, MessageEv notice) ∈ rest ∧
    (∀ d, d ∈ rest → d.2 = MessageEv notice) ∧
    room_log (st o') "TEST01" = [notice] ∧
    memberCount (st o') "TEST01" = 1.
Proof.
  intros o o'.
  destruct (last_member_disconnect solo_state 1 alice "TEST01" 20 3 "t5")
    as (H0 & H).
  - exact solo_state_reachable.
  - vm_compute. reflexivity.
  - reflexivity.
  - assert (Hzero : memberCount (st o) "TEST01" = 0).
    { apply H0; [exact solo_state_reachable_once|vm_compute; reflexivity]. }
    destruct (H Hzero) as (_ & H2 & _ & _ & H5).
    split; [exact Hzero|]. split; [exact H2|].
    apply (H5 2%nat (mkSocket None None ∅) (Some " test01 ") (Some "Bob") 21%N 4%N "t6").
    + vm_compute. reflexivity.
    + reflexivity.
    + reflexivity.
    + vm_compute. reflexivity.
Defined.

(** ** The scenario of the specification *)

(** Alice and Bob join TEST01, Alice says hi, Bob deletes her message,
    Alice leaves, Bob leaves. *)
Example specification_scenario :
  ∃ s1 s2 s3,
    run initial chat_run = Some s1 ∧
    memberCount s1 "TEST01" = 2 ∧
    ids s1 "TEST01" = ["sys-10-1"; "sys-11-2"; "m-12-34"] ∧
    run s1 [DeleteMessage 2 (Some "m-12-34")] = Some s2 ∧
    ids s2 "TEST01" = ["sys-10-1"; "sys-11-2"] ∧
    run s2 [Disconnect 1 20 3 "t5"] = Some s3 ∧
    memberCount s3 "TEST01" = 1 ∧
    ids s3 "TEST01" = ["sys-10-1"; "sys-11-2"; "sys-20-3"] ∧
    ∃ s4, run s3 [Disconnect 2 21 4 "t6"] = Some s4 ∧
          memberCount s4 "TEST01" = 0 ∧ roomMessages s4 !! "TEST01" = None ∧
          is_Some (teams s4 !! "TEST01").
Proof.
  eexists _, _, _. repeat (split; [vm_compute; reflexivity|]).
  eexists. repeat (split; [vm_compute; reflexivity|]).
  vm_compute. eauto.
Qed.

(** * Further properties *)

(** ** Creation, then join *)

Section CreateJoin.

Lemma normalize_custom_normal cc code :
  normalize_custom cc = Some code → code ≠ EmptyString → normalize code = code.
Proof.
  intros H Hne. destruct (normalize_custom_Some cc code H Hne) as (c & _ & _ & ->).
  apply normalize_idemp.
Qed.

Lemma created_code_normal t cc draws iso t' code :
  Forall (λ d, d < 32)%nat draws →
  create_team t cc draws iso = Some (t', Created code) →
  code ≠ EmptyString ∧ normalize code = code ∧ is_Some (t' !! code).
Proof.
  intros Hd Hc. apply create_team_spec in Hc as (Hkind & _ & ->); [|done].
  assert (code ≠ EmptyString ∧ normalize code = code) as [??].
  { destruct Hkind as [[Hn Hne]|[_ Hal]].
    - split; [done|]. by eapply normalize_custom_normal.
    - split; [|by eapply from_alphabet_normal]. destruct Hal as [Hlen _]. by intros ->. }
  repeat split; try done. rewrite lookup_insert_eq. eauto.
Qed.

Lemma join_room_ok s sid sk tc nm now rnd iso :
  truthy tc = true → truthy nm = true →
  is_Some (teams s !! normalize (to_string tc)) →
  ack (join_room s sid sk tc nm now rnd iso) = Some AckOk.
Proof.
  intros Htc Hnm [tm Ht]. unfold join_room. rewrite Htc, Hnm. simpl.
  unfold normalize in Ht. by rewrite Ht.
Qed.

End CreateJoin.

(** X1. Round trip of a creation and a join. The code that create-team
    answers with, generated or custom, is non-empty and in normal form
    (trimming and uppercasing leave it as it is), so a join-room that
    gives this code, or any spelling of it that trims and uppercases to
    it, with a non-empty name is acknowledged with ok on every state that
    has the registry of the creation; a custom code joins as it was typed
    in the request. *)
Theorem created_code_joins t cc draws iso t' code :
  Forall (λ d, d < 32)%nat draws →
  create_team t cc draws iso = Some (t', Created code) →
  normalize code = code ∧
  (∀ s sid sk tc nm now rnd iso',
     teams s = t' → truthy nm = true → normalize tc = code →
     ack (join_room s sid sk (Some tc) nm now rnd iso') = Some AckOk) ∧
  (∀ c, cc = Some c → truthy (normalize_custom cc) = true → normalize c = code).
Proof.
  intros Hd Hc.
  destruct (created_code_normal t cc draws iso t' code Hd Hc) as (Hne & Hnorm & Hin).
  split; [done|]. split.
  - intros s sid sk tc nm now rnd iso' Ht Hnm Htc.
    apply join_room_ok; [|done|].
    + apply truthy_true. exists tc. split; [done|]. intros ->.
      by rewrite <- Htc in Hne.
    + simpl. by rewrite Htc, Ht.
  - intros c -> Htr.
    apply create_team_spec in Hc as (Hkind & _ & _); [|done].
    destruct Hkind as [[Hn _]|[Hf _]]; [|by rewrite Hf in Htr].
    unfold normalize_custom in Hn. destruct (truthy (Some c)).
    + by injection Hn.
    + injection Hn as ->. done.
Qed.

Lemma created_code_joins_witness :
  let t' : gmap string Team := {["MY TEAM" := mkTeam "t0"]} in
  let s := mkState t' ∅ ∅ {[1%nat := mkSocket None None ∅]} in
  normalize "MY TEAM" = "MY TEAM" ∧
  ack (join_room s 1 (mkSocket None None ∅) (Some "  my team ") (Some "Alice")
         5 7 "t1") = Some AckOk.
Proof.
  intros t' s.
  destruct (created_code_joins ∅ (Some " My Team ") [] "t0" t' "MY TEAM")
    as (H1 & H2 & _).
  - constructor.
  - vm_compute. reflexivity.
  - split; [exact H1|]. apply H2; reflexivity.
Defined.

(** X2. A creation answers Conflict exactly when the request carries a
    customCode whose trimmed, uppercased form is non-empty and already a
    key of the registry; the registry, and so the createdAt of the entry
    that is there, is then left as it is. A creation without custom code
    never answers Conflict, and one with a custom code uses no random
    draw. *)
Theorem create_team_conflict t cc draws iso :
  (∀ t', create_team t cc draws iso = Some (t', Conflict) ↔
         t' = t ∧ ∃ c, normalize_custom cc = Some c ∧ c ≠ EmptyString ∧
                       is_Some (t !! c)) ∧
  (truthy (normalize_custom cc) = true → is_Some (create_team t cc draws iso)).
Proof.
  split.
  - intros t'. unfold create_team.
    destruct (truthy (normalize_custom cc)) eqn:Hcc.
    + apply truthy_true in Hcc as (c & Hn & Hc). rewrite Hn. cbn [to_string].
      destruct (t !! c) as [tm|] eqn:Ht; split.
      * intros [= <-]. split; [done|]. exists c. eauto.
      * by intros [-> _].
      * done.
      * intros [_ (c' & [= <-] & _ & [? ?])]. congruence.
    + split.
      * destruct (makeTeamCode 6 draws) as [[c0 rest]|]; [|done].
        by destruct (regenerate _ _ _ _).
      * intros [_ (c & Hn & Hc & _)]. rewrite Hn in Hcc.
        apply truthy_false in Hcc as [[=]|[= ->]]. done.
  - intros Hcc. unfold create_team. rewrite Hcc.
    destruct (t !! _); eauto.
Qed.

(** ** The draws and the code *)

Section Draws.

Lemma char_at_inj d1 d2 :
  (d1 < 32)%nat → (d2 < 32)%nat → char_at d1 = char_at d2 → d1 = d2.
Proof.
  intros H1 H2.
  do 32 (destruct d1 as [|d1];
         [do 32 (destruct d2 as [|d2]; [(reflexivity || discriminate)|]); lia|]).
  lia.
Qed.

Lemma code_of_inj ch1 : ∀ ch2,
  Forall (λ d, d < 32)%nat ch1 → Forall (λ d, d < 32)%nat ch2 →
  code_of ch1 = code_of ch2 → ch1 = ch2.
Proof.
  induction ch1 as [|d1 ch1 IH]; intros [|d2 ch2] H1 H2; simpl.
  - done.
  - apply Forall_cons in H2 as [Hd2 _].
    destruct (char_at_in_range d2 Hd2) as (a & -> & _). done.
  - apply Forall_cons in H1 as [Hd1 _].
    destruct (char_at_in_range d1 Hd1) as (a & -> & _). done.
  - apply Forall_cons in H1 as [Hd1 H1]. apply Forall_cons in H2 as [Hd2 H2].
    destruct (char_at_in_range d1 Hd1) as (a1 & Ha1 & _).
    destruct (char_at_in_range d2 Hd2) as (a2 & Ha2 & _).
    rewrite Ha1, Ha2. cbn. intros [= Ha Hc].
    f_equal; [|by apply IH].
    apply char_at_inj; try done. by rewrite Ha1, Ha2, Ha.
Qed.

Lemma makeTeamCode_Some n : ∀ draws code rest,
  makeTeamCode n draws = Some (code, rest) →
  ∃ ch, draws = ch ++ rest ∧ length ch = n ∧ code = code_of ch.
Proof.
  induction n as [|n IH]; intros draws code rest; simpl.
  - intros [= <- <-]. by exists [].
  - destruct draws as [|d ds]; [done|].
    destruct (makeTeamCode n ds) as [[c r]|] eqn:Hc; [|done]. intros [= <- <-].
    destruct (IH _ _ _ Hc) as (ch & -> & <- & ->). by exists (d :: ch).
Qed.

Lemma regenerate_Some fuel t : ∀ code0 draws c,
  regenerate fuel t code0 draws = Some c →
  t !! c = None ∧
  (c = code0 ∨
   ∃ pre ch rest,
     draws = concat pre ++ ch ++ rest ∧
     Forall (λ p, length p = 6%nat ∧ is_Some (t !! code_of p)) pre ∧
     length ch = 6%nat ∧ c = code_of ch ∧ is_Some (t !! code0)).
Proof.
  induction fuel as [|f IH]; intros code0 draws c; cbn [regenerate];
    destruct (t !! code0) as [tm|] eqn:Ht.
  - done.
  - intros [= <-]. auto.
  - destruct (makeTeamCode 6 draws) as [[c1 r1]|] eqn:Hmk; [|done]. intros Hr.
    apply makeTeamCode_Some in Hmk as (ch1 & -> & Hlen & ->).
    destruct (IH _ _ _ Hr) as [Hfree [->|(pre & ch & rest & -> & Hpre & Hch & -> & Hin)]].
    + split; [done|]. right. exists [], ch1, r1. by eauto 10.
    + split; [done|]. right. exists (ch1 :: pre), ch, rest.
      split; [cbn [concat]; by rewrite <- app_assoc|]. split; [by constructor|]. eauto.
  - intros [= <-]. auto.
Qed.

Lemma create_team_no_custom t cc draws iso :
  truthy (normalize_custom cc) = false →
  create_team t cc draws iso = create_team t None draws iso.
Proof. intros H. unfold create_team. by rewrite H. Qed.

End Draws.

(** X3. Retry on collision. Without a custom code, create-team answers
    with the code of the first six draws that make a code not yet in the
    registry, after any number of runs of six draws that each made a code
    already there; that code is the one entry added. It answers nothing
    else: every successful answer comes from draws of this shape. *)
Theorem create_team_first_free t cc draws iso t' code :
  truthy (normalize_custom cc) = false →
  (create_team t cc draws iso = Some (t', Created code) ↔
   ∃ pre ch rest,
     draws = concat pre ++ ch ++ rest ∧
     Forall (λ p, length p = 6%nat ∧ is_Some (t !! code_of p)) pre ∧
     length ch = 6%nat ∧ t !! code_of ch = None ∧
     code = code_of ch ∧ t' = <[code := mkTeam iso]> t).
Proof.
  intros Hcc. rewrite create_team_no_custom by done. split.
  - unfold create_team. cbn [normalize_custom truthy].
    destruct (makeTeamCode 6 draws) as [[c0 r0]|] eqn:Hmk; [|done].
    destruct (regenerate _ t c0 r0) as [c|] eqn:Hr; [|done]. intros [= <- <-].
    apply makeTeamCode_Some in Hmk as (ch0 & -> & Hlen & ->).
    apply regenerate_Some in Hr
      as [Hfree [->|(pre & ch & rest & -> & Hpre & Hch & -> & Hin)]].
    + exists [], ch0, r0. by eauto 10.
    + exists (ch0 :: pre), ch, rest.
      split; [cbn [concat]; by rewrite <- app_assoc|]. split; [by constructor|]. eauto.
  - intros (pre & ch & rest & -> & Hpre & Hch & Hfree & -> & ->).
    by apply create_team_returns.
Qed.

Lemma create_team_first_free_witness :
  let t : gmap string Team := {["ABCDEF" := mkTeam "t0"]} in
  create_team t (Some "   ") [0; 1; 2; 3; 4; 5; 31; 30; 29; 28; 27; 26; 7]%nat "t1"
  = Some (<["987654" := mkTeam "t1"]> t, Created "987654").
Proof.
  intros t.
  apply (create_team_first_free t (Some "   ") _ "t1" _ "987654" eq_refl).
  exists [[0; 1; 2; 3; 4; 5]%nat], [31; 30; 29; 28; 27; 26]%nat, [7%nat].
  split; [reflexivity|]. split.
  - constructor; [|constructor]. split; [reflexivity|]. vm_compute. eauto.
  - split; [reflexivity|]. split; [vm_compute; reflexivity|].
    split; reflexivity.
Defined.

(** X4. The alphabet has no repeated character: two runs of
    [makeTeamCode] that return the same code have read the same draws, so
    the 32^6 sequences of six draws make 32^6 different codes; and a run
    reads exactly as many draws as the length it is asked for. *)
Theorem makeTeamCode_draws n draws1 draws2 code rest1 rest2 :
  Forall (λ d, d < 32)%nat draws1 → Forall (λ d, d < 32)%nat draws2 →
  makeTeamCode n draws1 = Some (code, rest1) →
  makeTeamCode n draws2 = Some (code, rest2) →
  ∃ ch, length ch = n ∧ draws1 = ch ++ rest1 ∧ draws2 = ch ++ rest2.
Proof.
  intros H1 H2 Hm1 Hm2.
  apply makeTeamCode_Some in Hm1 as (ch1 & -> & Hlen1 & Hc1).
  apply makeTeamCode_Some in Hm2 as (ch2 & -> & Hlen2 & Hc2).
  apply Forall_app in H1 as [H1 _]. apply Forall_app in H2 as [H2 _].
  assert (ch1 = ch2) as -> by (apply code_of_inj; congruence).
  by exists ch2.
Qed.

Lemma makeTeamCode_draws_witness :
  ∃ ch, length ch = 6%nat ∧
        [0; 1; 2; 3; 4; 5; 9]%nat = ch ++ [9%nat] ∧
        [0; 1; 2; 3; 4; 5]%nat = ch ++ [].
Proof.
  apply (makeTeamCode_draws 6 [0; 1; 2; 3; 4; 5; 9]%nat [0; 1; 2; 3; 4; 5]%nat
           "ABCDEF" [9%nat] []).
  - repeat constructor; lia.
  - repeat constructor; lia.
  - reflexivity.
  - reflexivity.
Defined.

(** ** Ids *)

(** X5. An id tells the kind of entry, the millisecond and the random
    suffix it was made from: two notice ids, or two message ids, are equal
    only when both the clock readings and the suffixes are equal, and a
    notice id is never a message id. *)
Theorem message_id_injective now rnd now' rnd' :
  (sys_id now rnd = sys_id now' rnd' ↔ now = now' ∧ rnd = rnd') ∧
  (msg_id now rnd = msg_id now' rnd' ↔ now = now' ∧ rnd = rnd') ∧
  sys_id now rnd ≠ msg_id now' rnd'.
Proof.
  split; [|split].
  - split; [apply sys_id_inj|]. by intros [-> ->].
  - split; [apply msg_id_inj|]. by intros [-> ->].
  - apply sys_id_msg_id.
Qed.

Section Clock.

Lemma run_clock_reachable es : ∀ t s t' s',
  reachable_clock t s → run_clock t s es = Some (t', s') → reachable_clock t' s'.
Proof.
  induction es as [|e es IH]; intros t s t' s' Hs Hr; simpl in Hr.
  - by injection Hr as <- <-.
  - destruct (event_ok e) eqn:He; [|done]. simpl in Hr.
    destruct (match event_now e with Some now => (t <? now)%N | None => true end)
      eqn:Hclock; [|done].
    destruct (handle s e) as [o|] eqn:Ho; [|done]. simpl in Hr.
    eapply IH; [|exact Hr]. apply (clock_step t s e o); try done.
    intros now Hnow. rewrite Hnow in Hclock. by apply N.ltb_lt.
Qed.

End Clock.

(** X6. In a run in which the clock has moved on by a millisecond at
    least between any two events that read it, the ids of every room log
    are pairwise distinct, whatever the random suffixes are. *)
Theorem strict_clock_ids_distinct t s c :
  reachable_clock t s → NoDup (ids s c).
Proof. intros H. by apply (reachable_clock_ids_distinct t s). Qed.

Lemma strict_clock_ids_distinct_witness : NoDup (ids chat_state "TEST01").
Proof.
  apply (strict_clock_ids_distinct 12 chat_state "TEST01").
  apply (run_clock_reachable chat_run 0 initial); [constructor|].
  vm_compute. reflexivity.
Defined.

(** ** Sessions *)

Section Sessions.

Lemma slice0_length n : ∀ s, (String.length (slice0 n s) ≤ n)%nat.
Proof.
  induction n as [|n IH]; intros [|a s]; simpl; try lia.
  specialize (IH s). lia.
Qed.

Lemma teams_mono s e o c :
  handle s e = Some o → is_Some (teams s !! c) → is_Some (teams (st o) !! c).
Proof.
  intros Hh Hin.
  destruct (handle_teams s e o Hh) as [->|(cc & draws & iso & code & _ & Hc)]; [done|].
  apply create_team_inv in Hc as [[[=] _]|(c' & _ & _ & _ & ->)].
  rewrite lookup_insert. by case_decide.
Qed.

(** The sockets after an event: the ones before, a fresh one after a
    connection, the joining one with its fields set after a join. *)
Lemma handle_sockets s e o sid' sk' :
  handle s e = Some o → sockets (st o) !! sid' = Some sk' →
  sockets s !! sid' = Some sk' ∨
  (e = Connection sid' ∧ sk' = mkSocket None None ∅) ∨
  (∃ sk tc nm now rnd iso,
     e = JoinRoom sid' tc nm now rnd iso ∧ sockets s !! sid' = Some sk ∧
     ack o = Some AckOk ∧
     is_Some (teams s !! normalize (to_string tc)) ∧
     sk' = mkSocket (Some (normalize (to_string tc)))
             (Some (slice0 50 (trim (to_string nm))))
             ({[normalize (to_string tc)]} ∪ rooms sk)).
Proof.
  destruct e as [sid|sid tc nm now rnd iso|sid txt now rnd iso|sid i
                 |sid now rnd iso|cc draws iso]; simpl.
  - destruct (sockets s !! sid) eqn:Hs; [done|]. intros [= <-]. simpl.
    rewrite lookup_insert. case_decide as Hd; [|by left].
    subst. intros [= <-]. right; left. done.
  - destruct (sockets s !! sid) as [sk|] eqn:Hs; [|done]. intros [= <-].
    unfold join_room. destruct (_ || _); [by left|].
    fold (normalize (to_string tc)).
    destruct (teams s !! normalize (to_string tc)) as [tm|] eqn:Ht; [|by left].
    simpl. rewrite lookup_insert. case_decide as Hd; [|by left].
    subst. intros [= <-]. right; right. exists sk, tc, nm, now, rnd, iso.
    rewrite Ht. eauto 10.
  - destruct (sockets s !! sid) as [sk|]; [|done]. intros [= <-].
    unfold send_message. destruct (_ || _); [by left|].
    destruct (is_empty _); by left.
  - destruct (sockets s !! sid) as [sk|]; [|done]. intros [= <-].
    unfold delete_message. destruct (negb _); [by left|].
    destruct (negb _); [by left|]. destruct (findIndex _ _); by left.
  - destruct (sockets s !! sid) as [sk|]; [|done]. intros [= <-].
    assert (sockets (st (disconnect s sid sk now rnd iso)) = delete sid (sockets s))
      as ->.
    { unfold disconnect. destruct (negb _); [done|]. by destruct (0 <? _). }
    intros [_ H]%lookup_delete_Some. by left.
  - destruct (create_team _ _ _ _) as [[t' r]|]; [|done]. intros [= <-]. by left.
Qed.

Lemma session_ok_step s e o :
  (∀ sid sk, sockets s !! sid = Some sk → session_ok s sk) →
  handle s e = Some o →
  ∀ sid sk, sockets (st o) !! sid = Some sk → session_ok (st o) sk.
Proof.
  intros IH Hh sid' sk' Hsk'.
  assert (Hmono : ∀ sk, session_ok s sk → session_ok (st o) sk).
  { intros sk [H1 H2]. split; [done|]. intros r Hr. eapply teams_mono; eauto. }
  destruct (handle_sockets s e o sid' sk' Hh Hsk')
    as [Hold|[[_ ->]|(sk & tc & nm & now & rnd & iso & -> & Hsk & _ & Hin & ->)]].
  - by eapply Hmono, IH.
  - split; [done|]. intros r Hr. by apply not_elem_of_empty in Hr.
  - destruct (IH _ _ Hsk) as [_ Hrooms]. split; cbn [teamCode userName rooms].
    + split; [apply elem_of_union_l; by apply elem_of_singleton|apply slice0_length].
    + intros r [->%elem_of_singleton|Hr]%elem_of_union;
        eapply teams_mono; eauto.
Qed.

Lemma reachable_session_ok s :
  reachable s → ∀ sid sk, sockets s !! sid = Some sk → session_ok s sk.
Proof.
  induction 1 as [|s e o _ IH _ Hh].
  - intros sid sk Hsk. simpl in Hsk. by rewrite lookup_empty in Hsk.
  - by eapply session_ok_step.
Qed.

End Sessions.

(** X7. In every reachable state the fields that the join handler sets on
    a socket go together: the teamCode and the userName are both unset,
    and then the socket is in no room, or both set, and then the teamCode
    is a registered code and a room of the socket and the userName has 50
    characters at most; every room a socket is in is a registered code. *)
Theorem sessions_well_formed s sid sk :
  reachable s → sockets s !! sid = Some sk →
  (teamCode sk = None ↔ userName sk = None) ∧
  (teamCode sk = None → rooms sk = ∅) ∧
  (∀ c, teamCode sk = Some c → c ∈ rooms sk ∧ is_Some (teams s !! c)) ∧
  (∀ n, userName sk = Some n → (String.length n ≤ 50)%nat) ∧
  (∀ r, r ∈ rooms sk → is_Some (teams s !! r)).
Proof.
  intros Hr Hsk. destruct (reachable_session_ok s Hr sid sk Hsk) as [H1 H2].
  destruct (teamCode sk) as [c|], (userName sk) as [n|]; [|done|done|].
  - destruct H1 as [Hc Hn].
    split; [by split|]. split; [done|]. split; [|split; [|done]].
    + intros c' [= <-]. split; [done|by apply H2].
    + by intros n' [= <-].
  - split; [by split|]. split; [done|]. split; [done|]. split; done.
Qed.

Lemma sessions_well_formed_witness :
  (teamCode bob = None ↔ userName bob = None) ∧
  (teamCode bob = None → rooms bob = ∅) ∧
  (∀ c, teamCode bob = Some c → c ∈ rooms bob ∧ is_Some (teams chat_state !! c)) ∧
  (∀ n, userName bob = Some n → (String.length n ≤ 50)%nat) ∧
  (∀ r, r ∈ rooms bob → is_Some (teams chat_state !! r)).
Proof.
  apply (sessions_well_formed chat_state 2 bob).
  - exact chat_state_reachable.
  - vm_compute. reflexivity.
Defined.

(** ** Counts and logs *)

Section CountsAndLogs.

Lemma attached_le_join s sid sk tc nm now rnd iso :
  sockets s !! sid = Some sk →
  (∀ c, Z.of_nat (attached s c) ≤ memberCount s c) →
  ∀ c, Z.of_nat (attached (st (join_room s sid sk tc nm now rnd iso)) c)
       ≤ memberCount (st (join_room s sid sk tc nm now rnd iso)) c.
Proof.
  intros Hsk IH c. unfold join_room.
  destruct (_ || _); [apply IH|]. set (code := toUpperCase _).
  destruct (teams s !! code); [|apply IH].
  unfold memberCount, attached. simpl.
  rewrite count_insert, default_lookup_insert, num_or_0. cbn [teamCode].
  specialize (IH c). unfold memberCount, attached in IH.
  rewrite (count_lookup _ sid sk c Hsk) in IH.
  destruct (decide (code = c)) as [->|Hne].
  - rewrite decide_True by done. case_decide; lia.
  - rewrite decide_False by congruence. case_decide; lia.
Qed.

(** A joined socket was counted: the count of its room is one at least,
    and its disconnect takes exactly one off. *)
Lemma disconnect_exact s sid sk code now rnd iso :
  wf s → sockets s !! sid = Some sk → teamCode sk = Some code →
  (∀ c, Z.of_nat (attached s c) ≤ memberCount s c) →
  1 ≤ memberCount s code ∧
  memberCount (st (disconnect s sid sk now rnd iso)) code = memberCount s code - 1.
Proof.
  intros Hwf Hsk Hc IH.
  pose proof (wf_teamCode_truthy s sid sk code Hwf Hsk Hc) as Hcode.
  assert (H1 : 1 ≤ memberCount s code).
  { specialize (IH code). unfold attached in IH.
    rewrite (count_lookup _ sid sk code Hsk), decide_True in IH by done. lia. }
  split; [done|]. rewrite disconnect_memberCount by done.
  unfold memberCount in *.
  destruct (roomUserCounts s !! code) as [k|]; simpl in *; [|lia].
  destruct (k =? 0) eqn:Hk; lia.
Qed.

Lemma attached_le_disconnect s sid sk now rnd iso :
  wf s → sockets s !! sid = Some sk →
  (∀ c, Z.of_nat (attached s c) ≤ memberCount s c) →
  ∀ c, Z.of_nat (attached (st (disconnect s sid sk now rnd iso)) c)
       ≤ memberCount (st (disconnect s sid sk now rnd iso)) c.
Proof.
  intros Hwf Hsk IH c.
  assert (Hatt : attached (st (disconnect s sid sk now rnd iso)) c
                 = size (filter (λ p : nat * Socket, teamCode p.2 = Some c)
                           (delete sid (sockets s)))).
  { unfold disconnect, attached. destruct (negb _); [done|]. by destruct (0 <? _). }
  rewrite Hatt. pose proof (IH c) as Hc. unfold attached in Hc.
  rewrite (count_lookup _ sid sk c Hsk) in Hc.
  destruct (teamCode sk) as [code|] eqn:Htc.
  - pose proof (wf_teamCode_truthy s sid sk code Hwf Hsk Htc) as Hcode.
    destruct (decide (code = c)) as [->|Hne].
    + destruct (disconnect_exact s sid sk c now rnd iso Hwf Hsk Htc IH) as [_ ->].
      rewrite decide_True in Hc by done. lia.
    + rewrite decide_False in Hc by congruence.
      rewrite (disconnect_joined s sid sk code) by done.
      destruct (0 <? _); unfold memberCount in *; simpl;
        rewrite lookup_insert_ne by done; lia.
  - rewrite decide_False in Hc by done. unfold disconnect. rewrite Htc. simpl.
    unfold memberCount in *. simpl. lia.
Qed.

Lemma attached_le_step s e o :
  wf s → handle s e = Some o →
  (∀ c, Z.of_nat (attached s c) ≤ memberCount s c) →
  ∀ c, Z.of_nat (attached (st o) c) ≤ memberCount (st o) c.
Proof.
  intros Hwf Hh IH. destruct e; simpl in Hh.
  - destruct (sockets s !! sid) eqn:Hs; [done|]. injection Hh as <-.
    intros c. unfold memberCount, attached. simpl.
    rewrite count_insert, decide_False by done.
    rewrite delete_id by done. apply IH.
  - destruct (sockets s !! sid) as [sk|] eqn:Hs; [|done]. injection Hh as <-.
    by apply attached_le_join.
  - destruct (sockets s !! sid) as [sk|] eqn:Hs; [|done]. injection Hh as <-.
    unfold send_message. destruct (_ || _); [done|]. by destruct (is_empty _).
  - destruct (sockets s !! sid) as [sk|] eqn:Hs; [|done]. injection Hh as <-.
    unfold delete_message. destruct (negb _); [done|]. destruct (negb _); [done|].
    by destruct (findIndex _ _).
  - destruct (sockets s !! sid) as [sk|] eqn:Hs; [|done]. injection Hh as <-.
    by apply attached_le_disconnect.
  - destruct (create_team _ _ _ _) as [[t' r]|]; [|done]. by injection Hh as <-.
Qed.

Lemma reachable_attached_le s :
  reachable s → ∀ c, Z.of_nat (attached s c) ≤ memberCount s c.
Proof.
  induction 1 as [|s e o Hr IH _ Hh].
  - intros c. unfold memberCount, attached. simpl.
    by rewrite lookup_empty, map_filter_empty, map_size_empty.
  - eapply attached_le_step; eauto. by apply reachable_wf.
Qed.

End CountsAndLogs.

(** X8. A room's memberCount never undercounts: in every reachable state,
    repeated joins included, it is at least the number of connected
    sockets whose teamCode is the room's code. So when a joined socket
    disconnects the count of its room is one at least and the handler
    takes exactly one off: the default of 1 for a missing count and the
    floor at zero never come into play. *)
Theorem memberCount_never_undercounts s :
  reachable s →
  (∀ c, Z.of_nat (attached s c) ≤ memberCount s c) ∧
  (∀ sid sk code now rnd iso,
     sockets s !! sid = Some sk → teamCode sk = Some code →
     1 ≤ memberCount s code ∧
     memberCount (st (disconnect s sid sk now rnd iso)) code
     = memberCount s code - 1).
Proof.
  intros Hr. split; [by apply reachable_attached_le|].
  intros sid sk code now rnd iso Hsk Hc.
  apply disconnect_exact; try done; [by apply reachable_wf|].
  by apply reachable_attached_le.
Qed.

Lemma memberCount_never_undercounts_witness :
  Z.of_nat (attached join_twice_state "TEST01") ≤ memberCount join_twice_state "TEST01" ∧
  memberCount (st (disconnect join_twice_state 1 alice 20 3 "t5")) "TEST01"
  = memberCount join_twice_state "TEST01" - 1.
Proof.
  assert (Hr : reachable join_twice_state).
  { apply (run_reachable join_twice_run initial); [constructor|].
    vm_compute. reflexivity. }
  destruct (memberCount_never_undercounts join_twice_state Hr) as [H1 H2].
  split; [apply H1|].
  apply (H2 1%nat alice "TEST01" 20%N 3%N "t5"); [|reflexivity].
  vm_compute. reflexivity.
Defined.

Section EmptyRoom.

Lemma truthy_teamCode sk :
  truthy (teamCode sk) = true →
  ∃ code, teamCode sk = Some code ∧ code ≠ EmptyString ∧ to_string (teamCode sk) = code.
Proof. intros (c & Hc & Hne)%truthy_true. exists c. by rewrite Hc. Qed.

Lemma attached_pos s sid sk code :
  sockets s !! sid = Some sk → teamCode sk = Some code → (1 ≤ attached s code)%nat.
Proof.
  intros Hsk Hc. unfold attached.
  rewrite (count_lookup _ sid sk code Hsk), decide_True by done. lia.
Qed.

Lemma empty_room_step s e o :
  wf s → (∀ c, Z.of_nat (attached s c) ≤ memberCount s c) →
  (∀ c, memberCount s c = 0 → room_log s c = []) →
  handle s e = Some o →
  ∀ c, memberCount (st o) c = 0 → room_log (st o) c = [].
Proof.
  intros Hwf Hle IH Hh c. destruct e as [sid|sid tc nm now rnd iso|sid txt now rnd iso
                                         |sid i|sid now rnd iso|cc draws iso];
    simpl in Hh.
  - destruct (sockets s !! sid); [done|]. injection Hh as <-. apply IH.
  - destruct (sockets s !! sid) as [sk|] eqn:Hs; [|done]. injection Hh as <-.
    unfold join_room. destruct (_ || _); [apply IH|]. set (code := toUpperCase _).
    destruct (teams s !! code); [|apply IH].
    unfold memberCount. simpl. rewrite default_lookup_insert, num_or_0.
    rewrite room_log_insert. pose proof (memberCount_nonneg s code Hwf) as Hge.
    unfold memberCount in Hge. case_decide; [lia|apply IH].
  - destruct (sockets s !! sid) as [sk|] eqn:Hs; [|done]. injection Hh as <-.
    unfold send_message.
    destruct (truthy (teamCode sk)) eqn:Htc; [|apply IH].
    destruct (truthy_teamCode sk Htc) as (code & Hc & Hne & ->).
    destruct (negb true || negb _); [apply IH|].
    destruct (is_empty _); [apply IH|]. simpl.
    rewrite room_log_insert. case_decide as Hd; [subst c|apply IH].
    intros H0. pose proof (Hle code) as H1.
    pose proof (attached_pos s sid sk code Hs Hc) as H2.
    unfold memberCount in H0, H1. simpl in H0. lia.
  - destruct (sockets s !! sid) as [sk|] eqn:Hs; [|done]. injection Hh as <-.
    unfold delete_message.
    destruct (truthy (teamCode sk)) eqn:Htc; [|apply IH].
    destruct (truthy_teamCode sk Htc) as (code & Hc & Hne & ->).
    simpl negb. cbv iota.
    destruct (negb _); [apply IH|].
    destruct (decide (code = c)) as [->|Hd].
    + intros H0.
      assert (room_log s c = []) as Hnil.
      { apply IH. by destruct (findIndex _ _). }
      unfold room_log in Hnil. rewrite Hnil. simpl.
      by rewrite room_log_insert, decide_True.
    + destruct (findIndex _ _); simpl; rewrite room_log_insert, decide_False by done;
        apply IH.
  - destruct (sockets s !! sid) as [sk|] eqn:Hs; [|done]. injection Hh as <-.
    destruct (truthy (teamCode sk)) eqn:Htc.
    2:{ unfold disconnect. rewrite Htc. apply IH. }
    destruct (truthy_teamCode sk Htc) as (code & Hc & Hne & _).
    rewrite (disconnect_joined s sid sk code) by done.
    destruct (0 <? _) eqn:Hpos; unfold memberCount; simpl;
      rewrite default_lookup_insert.
    + rewrite room_log_insert. case_decide; [|apply IH].
      apply Z.ltb_lt in Hpos. lia.
    + rewrite room_log_delete. case_decide; [done|apply IH].
  - destruct (create_team _ _ _ _) as [[t' r]|]; [|done]. injection Hh as <-.
    apply IH.
Qed.

Lemma reachable_empty_room s :
  reachable s → ∀ c, memberCount s c = 0 → room_log s c = [].
Proof.
  induction 1 as [|s e o Hr IH _ Hh].
  - intros c _. unfold room_log. simpl. by rewrite lookup_empty.
  - eapply empty_room_step; eauto; [by apply reachable_wf|].
    by apply reachable_attached_le.
Qed.

End EmptyRoom.

(** X9. No message outlives its room: in every reachable state a room
    whose memberCount is zero has an empty log, and so has every code
    that no socket has joined yet. A log is only written while the count
    is positive and it is dropped when the count comes down to zero. *)
Theorem empty_room_has_empty_log s c :
  reachable s → memberCount s c = 0 → room_log s c = [].
Proof. intros Hr. by apply reachable_empty_room. Qed.

Lemma leave_state_reachable : reachable leave_state.
Proof.
  apply (run_reachable leave_run initial); [constructor|].
  vm_compute. reflexivity.
Qed.

Lemma empty_room_has_empty_log_witness : room_log leave_state "TEST01" = [].
Proof.
  apply (empty_room_has_empty_log leave_state "TEST01").
  - exact leave_state_reachable.
  - vm_compute. reflexivity.
Defined.

(** ** The entries of a log *)

Section Entries.

Lemma entries_step s e o :
  (∀ sid sk, sockets s !! sid = Some sk → session_ok s sk) →
  handle s e = Some o →
  ∀ c m, m ∈ room_log (st o) c → m ∈ room_log s c ∨ is_notice m ∨ is_chat m.
Proof.
  intros Hses Hh c m.
  destruct e as [sid|sid tc nm now rnd iso|sid txt now rnd iso
                 |sid i|sid now rnd iso|cc draws iso]; simpl in Hh.
  - destruct (sockets s !! sid); [done|]. injection Hh as <-. by left.
  - destruct (sockets s !! sid) as [sk|] eqn:Hs; [|done]. injection Hh as <-.
    unfold join_room. destruct (_ || _); [by left|].
    destruct (teams s !! _); [|by left]. simpl.
    rewrite room_log_insert. case_decide as Hd; [subst c|by left].
    intros [Hm|Hm%list_elem_of_singleton]%elem_of_app; [by left|subst m].
    right; left. repeat split. by eauto 10.
  - destruct (sockets s !! sid) as [sk|] eqn:Hs; [|done]. injection Hh as <-.
    unfold send_message.
    destruct (truthy (teamCode sk)) eqn:Htc; [|by left].
    destruct (truthy (userName sk)) eqn:Hun; [|by left].
    simpl negb. simpl orb. cbv iota.
    destruct (is_empty _) eqn:Hempty; [by left|]. simpl.
    rewrite room_log_insert. case_decide as Hd; [subst c|by left].
    intros [Hm|Hm%list_elem_of_singleton]%elem_of_app; [by left|subst m].
    right; right.
    apply truthy_true in Hun as (n & Hn & Hne).
    apply truthy_true in Htc as (code & Hc & _).
    destruct (Hses sid sk Hs) as [Hf _]. rewrite Hc, Hn in Hf. destruct Hf as [_ Hlen].
    split; [done|]. split; [by eauto|]. split; [by eauto|]. simpl.
    split; [by apply is_empty_false|apply trim_idemp].
  - destruct (sockets s !! sid) as [sk|] eqn:Hs; [|done]. injection Hh as <-.
    unfold delete_message. destruct (negb _); [by left|].
    destruct (negb _); [by left|].
    destruct (findIndex _ _) as [idx|] eqn:Hidx; simpl;
      rewrite room_log_insert; (case_decide as Hd; [subst c|by left]).
    + apply findIndex_Some in Hidx as (l1 & x & l2 & Hlog & _ & _ & _ & ->).
      intros Hm. left. unfold room_log. rewrite Hlog.
      apply elem_of_app in Hm as [Hm|Hm]; apply elem_of_app; [by left|].
      right. by right.
    + by left.
  - destruct (sockets s !! sid) as [sk|] eqn:Hs; [|done]. injection Hh as <-.
    unfold disconnect. destruct (negb _); [by left|].
    destruct (0 <? _); simpl.
    + rewrite room_log_insert. case_decide as Hd; [subst c|by left].
      intros [Hm|Hm%list_elem_of_singleton]%elem_of_app; [by left|subst m].
      right; left. repeat split. by eauto 10.
    + rewrite room_log_delete. case_decide as Hd; [|by left].
      intros Hm. by apply not_elem_of_nil in Hm.
  - destruct (create_team _ _ _ _) as [[t' r]|]; [|done]. injection Hh as <-.
    by left.
Qed.

End Entries.

(** X10. Every entry of a room log, in every reachable state, is a notice
    or a chat message as the handlers build them. A notice has the system
    flag, no name, a notice id and a text that ends in joined the chat or
    left the chat. A chat message has no system flag, a message id, a
    name that is not empty and has 50 characters at most, and a text
    that is not empty and carries no white space at either end. *)
Theorem log_entries_well_formed s c m :
  reachable s → m ∈ room_log s c → is_notice m ∨ is_chat m.
Proof.
  intros Hr. revert c m. induction Hr as [|s e o Hr IH _ Hh]; intros c m Hm.
  - unfold room_log in Hm. simpl in Hm. rewrite lookup_empty in Hm.
    by apply not_elem_of_nil in Hm.
  - destruct (entries_step s e o (reachable_session_ok s Hr) Hh c m Hm) as [Hold|Hnew].
    + by apply (IH c).
    + done.
Qed.

Lemma log_entries_well_formed_witness :
  let m := mkMessage "m-12-34" false (Some "Alice") "hi" "t3" in
  is_notice m ∨ is_chat m.
Proof.
  intros m. apply (log_entries_well_formed chat_state "TEST01" m).
  - exact chat_state_reachable.
  - vm_compute. repeat constructor.
Defined.

(** ** Who is sent what *)

Section Recipients.

Lemma io_to_emit_member s room ev sid ev' :
  (sid, ev') ∈ io_to_emit s room ev →
  ev' = ev ∧ ∃ sk, sockets s !! sid = Some sk ∧ room ∈ rooms sk.
Proof.
  intros [H1 H2]%io_to_emit_spec. simpl in *. split; [done|].
  by apply room_members_spec.
Qed.

Lemma deliveries_in_room s e o sid ev :
  handle s e = Some o → (sid, ev) ∈ deliveries o →
  ∃ sk c, sockets (st o) !! sid = Some sk ∧ event_room s e = Some c ∧ c ∈ rooms sk.
Proof.
  destruct e as [sid0|sid0 tc nm now rnd iso|sid0 txt now rnd iso
                 |sid0 i|sid0 now rnd iso|cc draws iso]; simpl.
  - destruct (sockets s !! sid0); [done|]. intros [= <-] Hd.
    by apply not_elem_of_nil in Hd.
  - destruct (sockets s !! sid0) as [sk0|] eqn:Hs; [|done]. intros [= <-].
    unfold join_room. destruct (_ || _).
    { intros Hd. by apply not_elem_of_nil in Hd. }
    fold (normalize (to_string tc)).
    destruct (teams s !! normalize (to_string tc)).
    2:{ intros Hd. by apply not_elem_of_nil in Hd. }
    cbn [deliveries st]. intros [[= -> ->]|Hd]%elem_of_cons.
    + eexists _, (normalize (to_string tc)).
      split; [apply lookup_insert_eq|]. split; [done|]. cbn [rooms].
      apply elem_of_union_l. by apply elem_of_singleton.
    + apply io_to_emit_member in Hd as [_ (sk & Hsk & Hin)].
      by exists sk, (normalize (to_string tc)).
  - destruct (sockets s !! sid0) as [sk0|] eqn:Hs; [|done]. intros [= <-].
    unfold send_message. destruct (truthy (teamCode sk0)) eqn:Htc.
    2:{ intros Hd. by apply not_elem_of_nil in Hd. }
    destruct (truthy_teamCode sk0 Htc) as (code & Hc & _ & ->).
    destruct (negb true || negb _).
    { intros Hd. by apply not_elem_of_nil in Hd. }
    destruct (is_empty _).
    { intros Hd. by apply not_elem_of_nil in Hd. }
    simpl. intros Hd. apply io_to_emit_member in Hd as [_ (sk & Hsk & Hin)].
    by exists sk, code.
  - destruct (sockets s !! sid0) as [sk0|] eqn:Hs; [|done]. intros [= <-].
    unfold delete_message. destruct (truthy (teamCode sk0)) eqn:Htc.
    2:{ intros Hd. by apply not_elem_of_nil in Hd. }
    destruct (truthy_teamCode sk0 Htc) as (code & Hc & _ & ->).
    simpl negb. cbv iota. destruct (negb _).
    { intros Hd. by apply not_elem_of_nil in Hd. }
    destruct (findIndex _ _).
    2:{ intros Hd. by apply not_elem_of_nil in Hd. }
    simpl. intros Hd. apply io_to_emit_member in Hd as [_ (sk & Hsk & Hin)].
    by exists sk, code.
  - destruct (sockets s !! sid0) as [sk0|] eqn:Hs; [|done]. intros [= <-].
    destruct (truthy (teamCode sk0)) eqn:Htc.
    2:{ unfold disconnect. rewrite Htc. intros Hd. by apply not_elem_of_nil in Hd. }
    destruct (truthy_teamCode sk0 Htc) as (code & Hc & Hne & _).
    rewrite (disconnect_joined s sid0 sk0 code) by done.
    destruct (0 <? _).
    2:{ intros Hd. by apply not_elem_of_nil in Hd. }
    simpl. intros Hd. apply io_to_emit_member in Hd as [_ (sk & Hsk & Hin)].
    by exists sk, code.
  - destruct (create_team _ _ _ _) as [[t' r]|]; [|done]. intros [= <-] Hd.
    by apply not_elem_of_nil in Hd.
Qed.

End Recipients.

(** X11. Whatever an event delivers goes to sockets that are connected
    once the handler has run, that are in the room the event works on and
    that have joined: a socket that has not joined is sent nothing, and
    the socket that disconnects is not sent its own leave notice. *)
Theorem deliveries_reach_room_members s e o sid ev :
  reachable s → event_ok e = true → handle s e = Some o →
  (sid, ev) ∈ deliveries o →
  ∃ sk c, sockets (st o) !! sid = Some sk ∧ event_room s e = Some c ∧
          c ∈ rooms sk ∧ is_Some (teamCode sk) ∧
          ∀ now rnd iso, e ≠ Disconnect sid now rnd iso.
Proof.
  intros Hr He Hh Hd.
  destruct (deliveries_in_room s e o sid ev Hh Hd) as (sk & c & Hsk & Hroom & Hin).
  exists sk, c. repeat split; try done.
  - assert (Hr' : reachable (st o)) by (by eapply reach_step).
    destruct (reachable_session_ok _ Hr' sid sk Hsk) as [Hf _].
    destruct (teamCode sk); [by eauto|]. destruct (userName sk); [done|].
    rewrite Hf in Hin. by apply not_elem_of_empty in Hin.
  - intros now rnd iso ->. simpl in Hh.
    destruct (sockets s !! sid) as [sk0|]; [|done]. injection Hh as <-.
    assert (sockets (st (disconnect s sid sk0 now rnd iso)) !! sid = None) as Hgone.
    { unfold disconnect. destruct (negb _); [apply lookup_delete_eq|].
      destruct (0 <? _); apply lookup_delete_eq. }
    congruence.
Qed.

Lemma deliveries_reach_room_members_witness :
  let e := SendMessage 2 (Some "yo") 13 5 "t4" in
  let o := default (mkOutcome initial [] None) (handle chat_state e) in
  ∃ sk c, sockets (st o) !! 1%nat = Some sk ∧ event_room chat_state e = Some c ∧
          c ∈ rooms sk ∧ is_Some (teamCode sk) ∧
          ∀ now rnd iso, e ≠ Disconnect 1 now rnd iso.
Proof.
  intros e o.
  apply (deliveries_reach_room_members chat_state e o 1
           (MessageEv (mkMessage "m-13-5" false (Some "Bob") "yo" "t4"))).
  - exact chat_state_reachable.
  - reflexivity.
  - vm_compute. reflexivity.
  - vm_compute. repeat constructor.
Defined.

(** X12. A socket stays in every room it has joined for as long as it is
    connected: no handler takes a socket out of a room, and a join that is
    acknowledged with ok adds the room joined to the ones the socket is
    already in, so after a second join the socket goes on receiving what is
    broadcast to the room it joined first. *)
Theorem rooms_only_grow s e o sid sk sk' :
  handle s e = Some o →
  sockets s !! sid = Some sk → sockets (st o) !! sid = Some sk' →
  rooms sk ⊆ rooms sk' ∧
  (∀ tc nm now rnd iso,
     e = JoinRoom sid tc nm now rnd iso → ack o = Some AckOk →
     rooms sk' = {[normalize (to_string tc)]} ∪ rooms sk).
Proof.
  intros Hh Hsk Hsk'. split.
  - destruct (handle_sockets s e o sid sk' Hh Hsk')
      as [Hold|[[-> _]|(sk0 & tc & nm & now & rnd & iso & -> & Hsk0 & _ & _ & ->)]].
    + by assert (sk' = sk) as -> by congruence.
    + simpl in Hh. by rewrite Hsk in Hh.
    + assert (sk0 = sk) as -> by congruence. cbn [rooms]. apply union_subseteq_r.
  - intros tc nm now rnd iso -> Hack. simpl in Hh. rewrite Hsk in Hh.
    injection Hh as <-. revert Hack Hsk'. unfold join_room.
    destruct (_ || _); [done|]. fold (normalize (to_string tc)).
    destruct (teams s !! normalize (to_string tc)); [|done].
    cbn [ack st sockets]. rewrite lookup_insert_eq. by intros _ [= <-].
Qed.

Lemma rooms_only_grow_witness :
  let e := JoinRoom 1 (Some "team02") (Some "Alice") 11 2 "t2" in
  let o := default (mkOutcome initial [] None) (handle rejoin_state e) in
  let sk := mkSocket (Some "TEAM01") (Some "Alice") {["TEAM01"]} in
  let sk' := mkSocket (Some "TEAM02") (Some "Alice") ({["TEAM02"]} ∪ {["TEAM01"]}) in
  rooms sk ⊆ rooms sk' ∧
  (∀ tc nm now rnd iso,
     e = JoinRoom 1 tc nm now rnd iso → ack o = Some AckOk →
     rooms sk' = {[normalize (to_string tc)]} ∪ rooms sk).
Proof.
  intros e o sk sk'. apply (rooms_only_grow rejoin_state e o 1 sk sk').
  - vm_compute. reflexivity.
  - vm_compute. reflexivity.
  - vm_compute. reflexivity.
Defined.

(** ** What an event leaves alone *)



(** X14. An error stays with the caller. Whenever join-room, send-message
    or delete-message acknowledges with an error, whatever the error,
    nothing is delivered to any socket and the registry, the counts, the
    sockets and every room log are what they were before. *)
Theorem errors_change_nothing s e o err :
  handle s e = Some o → ack o = Some (AckError err) →
  deliveries o = [] ∧ teams (st o) = teams s ∧
  roomUserCounts (st o) = roomUserCounts s ∧ sockets (st o) = sockets s ∧
  ∀ c, room_log (st o) c = room_log s c.
Proof.
  destruct e as [sid0|sid0 tc nm now rnd iso|sid0 txt now rnd iso
                 |sid0 i|sid0 now rnd iso|cc draws iso]; simpl.
  - destruct (sockets s !! sid0); [done|]. by intros [= <-].
  - destruct (sockets s !! sid0) as [sk0|]; [|done]. intros [= <-].
    unfold join_room. destruct (_ || _); [done|]. by destruct (teams s !! _).
  - destruct (sockets s !! sid0) as [sk0|]; [|done]. intros [= <-].
    unfold send_message. destruct (_ || _); [done|]. by destruct (is_empty _).
  - destruct (sockets s !! sid0) as [sk0|]; [|done]. intros [= <-].
    unfold delete_message. destruct (negb _); [done|]. destruct (negb _); [done|].
    destruct (findIndex _ _); [done|]. simpl. intros _. repeat split.
    intros c. rewrite room_log_insert. by case_decide; subst.
  - destruct (sockets s !! sid0) as [sk0|]; [|done]. intros [= <-].
    unfold disconnect. destruct (negb _); [done|]. by destruct (0 <? _).
  - destruct (create_team _ _ _ _) as [[t' r]|]; [|done]. by intros [= <-].
Qed.

Lemma errors_change_nothing_witness :
  let e := DeleteMessage 2 (Some "m-0-0") in
  let o := default (mkOutcome initial [] None) (handle chat_state e) in
  deliveries o = [] ∧ teams (st o) = teams chat_state ∧
  roomUserCounts (st o) = roomUserCounts chat_state ∧
  sockets (st o) = sockets chat_state ∧
  ∀ c, room_log (st o) c = room_log chat_state c.
Proof.
  intros e o. apply (errors_change_nothing chat_state e o "Message not found").
  - vm_compute. reflexivity.
  - vm_compute. reflexivity.
Defined.

(** ** The successful runs of the handlers *)

(** X15. A join-room with a non-empty teamCode and name and a registered
    code is acknowledged with ok. The joining socket is first sent the
    room's log as it was before the join; the count of the room goes up
    by one; a notice with the text of the trimmed name cut to 50
    characters and joined the chat is put at the end of the log and sent
    to every socket in the room, the joining one included; the socket's
    teamCode and userName are set. *)
Theorem join_room_success s sid sk tc nm now rnd iso :
  sockets s !! sid = Some sk →
  truthy tc = true → truthy nm = true →
  is_Some (teams s !! normalize (to_string tc)) →
  let code := normalize (to_string tc) in
  let user := slice0 50 (trim (to_string nm)) in
  let notice := mkMessage (sys_id now rnd) true None (user +:+ " joined the chat") iso in
  let o := join_room s sid sk tc nm now rnd iso in
  ack o = Some AckOk ∧
  memberCount (st o) code = memberCount s code + 1 ∧
  room_log (st o) code = room_log s code ++ [notice] ∧
  sockets (st o) !! sid = Some (mkSocket (Some code) (Some user) ({[code]} ∪ rooms sk)) ∧
  ∃ rest, deliveries o = (sid, RoomHistory (room_log s code)) :: rest ∧
          (sid, MessageEv notice) ∈ rest ∧
          (∀ sid' sk', sockets s !! sid' = Some sk' → code ∈ rooms sk' →
                       (sid', MessageEv notice) ∈ rest) ∧
          (∀ d, d ∈ rest → d.2 = MessageEv notice).
Proof.
  intros Hsk Htc Hnm [tm Ht] code user notice o. subst o. unfold join_room.
  rewrite Htc, Hnm. simpl negb. simpl orb. cbv iota.
  fold (normalize (to_string tc)). rewrite Ht. fold code user notice.
  cbn [ack st deliveries sockets].
  split; [done|].
  split; [unfold memberCount; cbn [roomUserCounts];
          by rewrite lookup_insert_eq, num_or_0|].
  split; [unfold room_log; cbn [roomMessages]; by rewrite lookup_insert_eq|].
  split; [apply lookup_insert_eq|].
  eexists. split; [reflexivity|]. split; [|split].
  - apply io_to_emit_spec. split; [done|]. apply room_members_spec.
    eexists. split; [apply lookup_insert_eq|]. cbn [rooms].
    apply elem_of_union_l. by apply elem_of_singleton.
  - intros sid' sk' Hsk' Hin. apply io_to_emit_spec. split; [done|].
    apply room_members_spec. cbn [sockets fst].
    destruct (decide (sid' = sid)) as [->|Hne].
    + eexists. split; [apply lookup_insert_eq|]. cbn [rooms].
      apply elem_of_union_l. by apply elem_of_singleton.
    + exists sk'. by rewrite lookup_insert_ne.
  - by intros d [? _]%io_to_emit_spec.
Qed.

Lemma join_room_success_witness :
  let o := join_room solo_state 2 (mkSocket None None ∅)
             (Some " test01") (Some "  Bob  ") 13 5 "t4" in
  ack o = Some AckOk ∧
  memberCount (st o) "TEST01" = memberCount solo_state "TEST01" + 1.
Proof.
  intros o.
  destruct (join_room_success solo_state 2 (mkSocket None None ∅)
              (Some " test01") (Some "  Bob  ") 13 5 "t4") as (H1 & H2 & _).
  - vm_compute. reflexivity.
  - reflexivity.
  - reflexivity.
  - vm_compute. eauto.
  - split; [exact H1|exact H2].
Defined.

Lemma send_message_success_aux s sk code user txt now rnd iso :
  teamCode sk = Some code → code ≠ EmptyString →
  userName sk = Some user → user ≠ EmptyString →
  trim (or_else txt EmptyString) ≠ EmptyString →
  let msg := mkMessage (msg_id now rnd) false (Some user)
               (trim (or_else txt EmptyString)) iso in
  let o := send_message s sk txt now rnd iso in
  ack o = Some AckOk ∧ room_log (st o) code = room_log s code ++ [msg].
Proof.
  intros Hc Hcode Hu Hne Htxt msg o. subst o. unfold send_message. rewrite Hc, Hu.
  assert (truthy (Some code) = true) as -> by (apply truthy_true; eauto).
  assert (truthy (Some user) = true) as -> by (apply truthy_true; eauto).
  simpl negb. simpl orb. cbv iota. cbn [to_string].
  apply is_empty_false in Htxt. rewrite Htxt. fold msg. cbn [ack st].
  split; [done|]. unfold room_log. cbn [roomMessages]. by rewrite lookup_insert_eq.
Qed.

(** X16. A send-message of a socket that has a teamCode and a non-empty
    userName, with a text that is not blank, is acknowledged with ok: one
    chat message with the sender's userName and the trimmed text is put at
    the end of the room's log, the entries before it are kept, and the
    message is sent to every socket in the room, the sender included. *)
Theorem send_message_success s sid sk code user txt now rnd iso :
  reachable s → sockets s !! sid = Some sk →
  teamCode sk = Some code → userName sk = Some user → user ≠ EmptyString →
  trim (or_else txt EmptyString) ≠ EmptyString →
  let msg := mkMessage (msg_id now rnd) false (Some user)
               (trim (or_else txt EmptyString)) iso in
  let o := send_message s sk txt now rnd iso in
  ack o = Some AckOk ∧
  room_log (st o) code = room_log s code ++ [msg] ∧
  roomUserCounts (st o) = roomUserCounts s ∧
  (sid, MessageEv msg) ∈ deliveries o ∧
  (∀ sid' sk', sockets s !! sid' = Some sk' → code ∈ rooms sk' →
               (sid', MessageEv msg) ∈ deliveries o) ∧
  (∀ d, d ∈ deliveries o → d.2 = MessageEv msg).
Proof.
  intros Hr Hsk Hc Hu Hne Htxt msg o. subst o. pose proof (reachable_wf s Hr) as Hwf.
  pose proof (wf_teamCode_truthy s sid sk code Hwf Hsk Hc) as Hcode.
  destruct (wf_socket s Hwf sid sk code Hsk Hc) as [_ Hin].
  unfold send_message. rewrite Hc, Hu.
  assert (truthy (Some code) = true) as -> by (apply truthy_true; eauto).
  assert (truthy (Some user) = true) as -> by (apply truthy_true; eauto).
  simpl negb. simpl orb. cbv iota. cbn [to_string].
  apply is_empty_false in Htxt. rewrite Htxt. fold msg.
  cbn [ack st deliveries roomUserCounts].
  assert (Hall : ∀ sid' sk', sockets s !! sid' = Some sk' → code ∈ rooms sk' →
    (sid', MessageEv msg) ∈
      io_to_emit (mkState (teams s)
                    (<[code := default [] (roomMessages s !! code) ++ [msg]]>
                       (roomMessages s)) (roomUserCounts s) (sockets s))
        code (MessageEv msg)).
  { intros sid' sk' Hsk' Hin'. apply io_to_emit_spec. split; [done|].
    apply room_members_spec. by exists sk'. }
  split; [done|].
  split; [unfold room_log; cbn [roomMessages]; by rewrite lookup_insert_eq|].
  split; [done|]. split; [by apply (Hall sid sk)|]. split; [done|].
  by intros d [? _]%io_to_emit_spec.
Qed.

Lemma send_message_success_witness :
  let msg := mkMessage "m-13-5" false (Some "Bob") "yo" "t4" in
  let o := send_message chat_state bob (Some " yo ") 13 5 "t4" in
  ack o = Some AckOk ∧
  room_log (st o) "TEST01" = room_log chat_state "TEST01" ++ [msg].
Proof.
  intros msg o.
  destruct (send_message_success chat_state 2 bob "TEST01" "Bob" (Some " yo ")
              13 5 "t4") as (H1 & H2 & _).
  - exact chat_state_reachable.
  - vm_compute. reflexivity.
  - reflexivity.
  - reflexivity.
  - discriminate.
  - vm_compute. discriminate.
  - split; [exact H1|exact H2].
Defined.

(** X17. When a joined socket disconnects and other members are still
    counted, the room's log is kept and a notice is put at its end, with
    the userName of the socket, or A user when that name is empty, and
    left the chat; the count goes down by one; the notice is sent to the
    sockets of the room that are still connected and never to the one
    that has gone. The disconnect of a socket that has not joined changes
    no log and no count and delivers nothing. *)
Theorem disconnect_leaves_notice s sid sk now rnd iso :
  reachable s → sockets s !! sid = Some sk →
  let o := disconnect s sid sk now rnd iso in
  let notice := mkMessage (sys_id now rnd) true None
                  (or_else (userName sk) "A user" +:+ " left the chat") iso in
  sockets (st o) = delete sid (sockets s) ∧
  (teamCode sk = None →
     roomMessages (st o) = roomMessages s ∧
     roomUserCounts (st o) = roomUserCounts s ∧ deliveries o = []) ∧
  (∀ code, teamCode sk = Some code → 1 < memberCount s code →
     room_log (st o) code = room_log s code ++ [notice] ∧
     memberCount (st o) code = memberCount s code - 1 ∧
     (∀ sid' sk', sid' ≠ sid → sockets s !! sid' = Some sk' → code ∈ rooms sk' →
                  (sid', MessageEv notice) ∈ deliveries o) ∧
     (∀ d, d ∈ deliveries o → d.1 ≠ sid ∧ d.2 = MessageEv notice)).
Proof.
  intros Hr Hsk o notice. subst o. pose proof (reachable_wf s Hr) as Hwf.
  split; [|split].
  - unfold disconnect. destruct (negb _); [done|]. by destruct (0 <? _).
  - intros Hnone. unfold disconnect. by rewrite Hnone.
  - intros code Hc Hcount.
    pose proof (wf_teamCode_truthy s sid sk code Hwf Hsk Hc) as Hcode.
    assert (Hn : Z.max 0 (num_or (roomUserCounts s !! code) 1 - 1)
                 = memberCount s code - 1).
    { unfold memberCount in *.
      destruct (roomUserCounts s !! code) as [k|]; simpl in *; [|lia].
      destruct (k =? 0) eqn:Hk; lia. }
    rewrite (disconnect_joined s sid sk code) by done. rewrite Hn.
    assert ((0 <? memberCount s code - 1) = true) as -> by (apply Z.ltb_lt; lia).
    fold notice. cbn [st deliveries].
    split; [unfold room_log; cbn [roomMessages]; by rewrite lookup_insert_eq|].
    split; [unfold memberCount; cbn [roomUserCounts]; by rewrite lookup_insert_eq|].
    split.
    + intros sid' sk' Hne Hsk' Hin. apply io_to_emit_spec. split; [done|].
      apply room_members_spec. exists sk'. cbn [sockets fst].
      by rewrite lookup_delete_ne.
    + intros [sid' ev] [Hev (sk' & Hsk' & _)]%io_to_emit_member.
      split; [|done]. cbn [sockets fst] in *. intros ->.
      by rewrite lookup_delete_eq in Hsk'.
Qed.

Lemma disconnect_leaves_notice_witness :
  let o := disconnect chat_state 1 alice 20 3 "t5" in
  let notice := mkMessage "sys-20-3" true None "Alice left the chat" "t5" in
  room_log (st o) "TEST01" = room_log chat_state "TEST01" ++ [notice] ∧
  memberCount (st o) "TEST01" = memberCount chat_state "TEST01" - 1 ∧
  (2%nat, MessageEv notice) ∈ deliveries o.
Proof.
  intros o notice.
  destruct (disconnect_leaves_notice chat_state 1 alice 20 3 "t5")
    as (_ & _ & H).
  - exact chat_state_reachable.
  - vm_compute. reflexivity.
  - destruct (H "TEST01") as (H1 & H2 & H3 & _).
    + reflexivity.
    + vm_compute. reflexivity.
    + split; [exact H1|]. split; [exact H2|].
      apply (H3 2%nat bob); [discriminate|vm_compute; reflexivity|].
      vm_compute. repeat constructor.
Defined.

(** ** Handlers in sequence *)

Section Sequences.

Lemma findIndex_app_fresh i (l : list Message) m :
  (∀ x, x ∈ l → id x ≠ i) → id m = i → findIndex i (l ++ [m]) = Some (length l).
Proof.
  intros Hl Hm. induction l as [|x l IH]; simpl.
  - by rewrite decide_True.
  - rewrite decide_False by (apply Hl; by left).
    rewrite IH; [done|]. intros y Hy. apply Hl. by right.
Qed.

Lemma not_in_ids s c i : i ∉ ids s c → ∀ x, x ∈ room_log s c → id x ≠ i.
Proof.
  intros Hi x Hx <-. apply Hi. unfold ids. by apply list_elem_of_fmap_2.
Qed.

End Sequences.

(** X18. Send, then delete. When a message has been sent under an id that
    no entry of the room's log had, a delete-message with that id by any
    socket joined to the room is acknowledged with ok and takes out that
    very message: the room's log is again what it was before the send. *)
Theorem send_then_delete s sid sk sid2 sk2 code user txt now rnd iso :
  reachable s → sockets s !! sid = Some sk →
  teamCode sk = Some code → userName sk = Some user → user ≠ EmptyString →
  trim (or_else txt EmptyString) ≠ EmptyString →
  msg_id now rnd ∉ ids s code →
  sockets s !! sid2 = Some sk2 → teamCode sk2 = Some code →
  let o := send_message s sk txt now rnd iso in
  let o' := delete_message (st o) sk2 (Some (msg_id now rnd)) in
  ack o = Some AckOk ∧ ack o' = Some AckOk ∧
  room_log (st o') code = room_log s code.
Proof.
  intros Hr Hsk Hc Hu Hne Htxt Hfresh Hsk2 Hc2 o o'.
  pose proof (reachable_wf s Hr) as Hwf.
  pose proof (wf_teamCode_truthy s sid sk code Hwf Hsk Hc) as Hcode.
  destruct (send_message_success_aux s sk code user txt now rnd iso Hc Hcode Hu Hne Htxt)
    as [Hack Hlog]. fold o in Hack, Hlog.
  split; [done|]. subst o'.
  rewrite (delete_message_found (st o) sk2 code (msg_id now rnd)
             (length (room_log s code))); try done.
  - cbn [ack st]. split; [done|].
    rewrite room_log_insert, decide_True by done.
    rewrite Hlog, (delete_middle _ []). apply app_nil_r.
  - rewrite Hlog. apply findIndex_app_fresh; [|done]. by apply not_in_ids.
Qed.

Lemma send_then_delete_witness :
  let o := send_message chat_state bob (Some " yo ") 13 5 "t4" in
  let o' := delete_message (st o) alice (Some "m-13-5") in
  ack o = Some AckOk ∧ ack o' = Some AckOk ∧
  room_log (st o') "TEST01" = room_log chat_state "TEST01".
Proof.
  apply (send_then_delete chat_state 2 bob 1 alice "TEST01" "Bob" (Some " yo ")
           13 5 "t4").
  - exact chat_state_reachable.
  - vm_compute. reflexivity.
  - reflexivity.
  - reflexivity.
  - discriminate.
  - vm_compute. discriminate.
  - apply (bool_decide_unpack _). vm_compute. exact I.
  - vm_compute. reflexivity.
  - reflexivity.
Defined.

(** X19. Delete, then delete again. In a log whose ids are distinct, a
    delete-message that is acknowledged with ok leaves no entry with the
    id: the same request sent once more is refused with the not-found
    error and changes nothing. *)
Theorem delete_twice s sid sk code i :
  reachable s → sockets s !! sid = Some sk → teamCode sk = Some code →
  NoDup (ids s code) → i ∈ ids s code →
  let o := delete_message s sk (Some i) in
  let o' := delete_message (st o) sk (Some i) in
  ack o = Some AckOk ∧ (i ∉ ids (st o) code) ∧
  ack o' = Some NotFound ∧ room_log (st o') code = room_log (st o) code.
Proof.
  intros Hr Hsk Hc Hnd Hi o o'. pose proof (reachable_wf s Hr) as Hwf.
  pose proof (wf_teamCode_truthy s sid sk code Hwf Hsk Hc) as Hcode.
  unfold ids in Hi. apply list_elem_of_fmap in Hi as (m & -> & Hm).
  pose proof (wf_ids s Hwf code m Hm) as Hne.
  destruct (findIndex_is_Some (id m) _ m Hm eq_refl) as [idx Hidx].
  assert (Ho : o = _) by apply (delete_message_found s sk code (id m) idx Hc Hcode Hne Hidx).
  apply findIndex_Some in Hidx as (l1 & x & l2 & Hlog & _ & Hx & _ & Hdel).
  assert (Hlog' : room_log (st o) code = l1 ++ l2).
  { rewrite Ho. cbn [st]. by rewrite room_log_insert, decide_True, Hdel. }
  assert (Hgone : ∀ y, y ∈ room_log (st o) code → id y ≠ id m).
  { rewrite Hlog'. intros y Hy Hid. unfold ids in Hnd. rewrite Hlog in Hnd.
    assert (y ∈ l1 ++ x :: l2) as Hy'.
    { apply elem_of_app in Hy as [?|?]; apply elem_of_app; [by left|].
      right. by right. }
    destruct (nodup_ids_split l1 l2 x y Hnd Hy') as [-> Hnot]; [congruence|].
    done. }
  split; [by rewrite Ho|]. split.
  - unfold ids. intros (y & Hid & Hy)%list_elem_of_fmap. by apply (Hgone y).
  - subst o'. rewrite (delete_message_missing (st o) sk code (id m)); try done.
    + cbn [ack st fail]. split; [done|]. by rewrite room_log_insert, decide_True.
    + by apply findIndex_None.
Qed.

Lemma delete_twice_witness :
  let o := delete_message chat_state bob (Some "m-12-34") in
  let o' := delete_message (st o) bob (Some "m-12-34") in
  ack o = Some AckOk ∧ ("m-12-34" ∉ ids (st o) "TEST01") ∧
  ack o' = Some NotFound ∧ room_log (st o') "TEST01" = room_log (st o) "TEST01".
Proof.
  apply (delete_twice chat_state 2 bob "TEST01" "m-12-34").
  - exact chat_state_reachable.
  - vm_compute. reflexivity.
  - reflexivity.
  - apply (bool_decide_unpack _). vm_compute. exact I.
  - apply (bool_decide_unpack _). vm_compute. exact I.
Defined.

(** ** Counting joins *)

Section Growing.

Lemma run_growing_reachable es : ∀ s s',
  reachable_growing s → run_growing s es = Some s' → reachable_growing s'.
Proof.
  induction es as [|e es IH]; intros s s' Hs Hr; simpl in Hr.
  - by inversion Hr; subst.
  - destruct (event_ok e) eqn:He; [|done].
    destruct (keeps_entries e) eqn:Hk; [|done].
    destruct (handle s e) as [o|] eqn:Ho; [|done]. simpl in Hr.
    eapply IH; [|exact Hr]. by eapply growing_step.
Qed.

Lemma notices_app l m :
  notices (l ++ [m]) = (notices l + if system m then 1 else 0)%nat.
Proof.
  unfold notices. rewrite filter_app, length_app. f_equal.
  destruct (system m) eqn:Hm.
  - by rewrite filter_cons_True.
  - rewrite filter_cons_False; [done|]. by rewrite Hm.
Qed.

Lemma notices_step s e o :
  keeps_entries e = true → handle s e = Some o →
  (∀ c, memberCount s c = Z.of_nat (notices (room_log s c))) →
  ∀ c, memberCount (st o) c = Z.of_nat (notices (room_log (st o) c)).
Proof.
  intros Hk Hh IH c.
  destruct e as [sid|sid tc nm now rnd iso|sid txt now rnd iso
                 |sid i|sid now rnd iso|cc draws iso]; try done; simpl in Hh.
  - destruct (sockets s !! sid); [done|]. injection Hh as <-. apply IH.
  - destruct (sockets s !! sid) as [sk|]; [|done]. injection Hh as <-.
    unfold join_room. destruct (_ || _); [apply IH|].
    destruct (teams s !! _); [|apply IH].
    unfold memberCount. cbn [st roomUserCounts].
    rewrite default_lookup_insert, num_or_0, room_log_insert.
    case_decide; [subst c|apply IH].
    rewrite notices_app. cbn [system]. specialize (IH (toUpperCase (trim (to_string tc)))).
    unfold memberCount, room_log in IH. lia.
  - destruct (sockets s !! sid) as [sk|]; [|done]. injection Hh as <-.
    unfold send_message. destruct (_ || _); [apply IH|].
    destruct (is_empty _); [apply IH|].
    unfold memberCount. cbn [st roomUserCounts]. rewrite room_log_insert.
    case_decide; [subst c|apply IH].
    rewrite notices_app. cbn [system]. specialize (IH (to_string (teamCode sk))).
    unfold memberCount, room_log in IH. lia.
  - destruct (create_team _ _ _ _) as [[t' r]|]; [|done]. injection Hh as <-.
    apply IH.
Qed.

End Growing.

(** X20. In a run without disconnect and without delete, a room's
    memberCount is the number of notices in its log: every join that is
    acknowledged with ok, a repeated one as well, adds one to the count
    and one join notice to the log, and a send adds a message that is not
    a notice. After N such joins to a new code the count is N and the log
    holds N notices. *)
Theorem joins_counted_by_notices s c :
  reachable_growing s → memberCount s c = Z.of_nat (notices (room_log s c)).
Proof.
  intros Hr. revert c. induction Hr as [|s e o _ IH _ Hk Hh].
  - intros c. unfold memberCount, room_log. simpl. by rewrite !lookup_empty.
  - by apply (notices_step s e o).
Qed.

Lemma joins_counted_by_notices_witness :
  memberCount chat_state "TEST01" = Z.of_nat (notices (room_log chat_state "TEST01")).
Proof.
  apply (joins_counted_by_notices chat_state "TEST01").
  apply (run_growing_reachable chat_run initial); [constructor|].
  vm_compute. reflexivity.
Defined.

(** ** The only member leaves *)

(** X21. In a run in which no socket sends join-room after it has joined,
    when the only socket attached to a room disconnects, the room's count
    comes down to zero, its log is dropped, nothing is broadcast, and no
    socket is attached to the room any more. *)
Theorem only_member_leaves s sid sk code now rnd iso :
  reachable_once s → sockets s !! sid = Some sk → teamCode sk = Some code →
  attached s code = 1%nat →
  let o := disconnect s sid sk now rnd iso in
  memberCount (st o) code = 0 ∧ roomMessages (st o) !! code = None ∧
  deliveries o = [] ∧ attached (st o) code = 0%nat.
Proof.
  intros Hr Hsk Hc Hone o.
  pose proof (reachable_wf s (reachable_once_reachable s Hr)) as Hwf.
  pose proof (wf_teamCode_truthy s sid sk code Hwf Hsk Hc) as Hcode.
  pose proof (last_attached_member s sid sk code now rnd iso Hr Hsk Hc Hone) as Hzero.
  fold o in Hzero. split; [done|].
  assert (Hatt : attached (st o) code = 0%nat).
  { unfold attached in Hone. rewrite (count_lookup _ sid sk code Hsk) in Hone.
    rewrite decide_True in Hone by done.
    subst o. rewrite (disconnect_joined s sid sk code) by done.
    unfold attached. destruct (0 <? _); cbn [st sockets]; lia. }
  subst o. rewrite disconnect_memberCount in Hzero by done.
  rewrite (disconnect_joined s sid sk code) in * by done. rewrite Hzero in *.
  cbn [st deliveries roomMessages] in *. split; [apply lookup_delete_eq|done].
Qed.

Lemma only_member_leaves_witness :
  let o := disconnect solo_state 1 alice 20 3 "t5" in
  memberCount (st o) "TEST01" = 0 ∧ roomMessages (st o) !! "TEST01" = None ∧
  deliveries o = [] ∧ attached (st o) "TEST01" = 0%nat.
Proof.
  apply (only_member_leaves solo_state 1 alice "TEST01" 20 3 "t5").
  - apply (run_once_reachable solo_run initial); [constructor|].
    vm_compute. reflexivity.
  - vm_compute. reflexivity.
  - reflexivity.
  - vm_compute. reflexivity.
Defined.
